(** * The [gpt] partition-table tool (system/uapp/gpt/gpt.c)

    A shallow embedding of the command-line GPT editor and the properties
    of its three workflows (dump, add, remove), of the session it opens
    ([cgetc], [init], [commit]), of its two decoders and of its command
    line ([main]).

    Conventions of the embedding:
    - C integers are [Z]; the 64-bit unsigned arithmetic of the source is
      written with its wrap-around ([wrap64]);
    - a [char] buffer is a [list Z] of byte values, NUL being [0]; a pointer
      into a buffer that is read as a C string is read up to the first NUL,
      and running off the end of the buffer is a fault;
    - a run is a function of the state of the process: the pending input
      and the log of what the run has done so far, one event per [printf]
      and per call to the device or the codec; it ends by returning, in a
      fault (undefined behaviour), or blocked on its input;
    - the block device and the GPT codec library (gpt/gpt.h, not part of
      this file) are parameters of the development: their answers are
      taken from a [platform] record. *)

From Stdlib Require Import ZArith Ascii String.
From stdpp Require Import base option list gmap.

Local Open Scope Z_scope.

(** ** Text and [printf] *)

Module Text.

(** A byte value as a character of the output. *)
Definition char_of (c : Z) : ascii := ascii_of_N (Z.to_N c).

Definition code_of (a : ascii) : Z := Z.of_N (N_of_ascii a).

Definition text_of (cs : list Z) : string :=
  string_of_list_ascii (map char_of cs).

Definition codes_of (s : string) : list Z :=
  map code_of (list_ascii_of_string s).

(** The C string that starts at the beginning of [buf]: the bytes before
    the first NUL.  [None] when the buffer holds no NUL (the read would
    leave the object). *)
Fixpoint cstring (buf : list Z) : option (list Z) :=
  match buf with
  | [] => None
  | c :: rest => if c =? 0 then Some [] else (c ::.) <$> cstring rest
  end.

(** A string literal or an [argv] string, as the bytes it occupies. *)
Definition literal (s : string) : list Z := codes_of s ++ [0].

Definition hex_digit (upper : bool) (d : Z) : Z :=
  if d <? 10 then 48 + d else (if upper then 55 else 87) + d.

(** The hexadecimal digits of [u], most significant first; [fuel] bounds
    the number of digits (16 for a 64-bit value). *)
Fixpoint hex_digits (fuel : nat) (upper : bool) (u : Z) (acc : list Z) : list Z :=
  match fuel with
  | O => acc
  | S fuel' =>
      let acc' := hex_digit upper (u mod 16) :: acc in
      if u / 16 =? 0 then acc' else hex_digits fuel' upper (u / 16) acc'
  end.

Fixpoint dec_digits (fuel : nat) (u : Z) (acc : list Z) : list Z :=
  match fuel with
  | O => acc
  | S fuel' =>
      let acc' := (48 + u mod 10) :: acc in
      if u / 10 =? 0 then acc' else dec_digits fuel' (u / 10) acc'
  end.

Definition pad_zero (width : nat) (ds : list Z) : list Z :=
  replicate (width - length ds) 48 ++ ds.

(** [%llx], [%llu], [%d] and [%02X]. *)
Definition fmt_llx (u : Z) : list Z := hex_digits 16 false u [].
Definition fmt_llu (u : Z) : list Z := dec_digits 20 u [].
Definition fmt_d (i : Z) : list Z :=
  if i <? 0 then 45 :: dec_digits 20 (- i) [] else dec_digits 20 i [].
Definition fmt_02X (i : Z) : list Z := pad_zero 2 (hex_digits 8 true i []).

(** The arguments of a [printf] call: an [int], an [unsigned long long],
    or a [char*] given as the bytes of the object it points into. *)
Inductive parg :=
| ArgInt (i : Z)
| ArgU64 (u : Z)
| ArgStr (buf : list Z).

(** The conversions the program uses; format strings are written as in
    the C source, so the escape [\n] stands for the newline character.
    [None]: a conversion without a matching argument, or a [%s] whose
    argument is not terminated. *)
Fixpoint format (fmt : string) (args : list parg) : option (list Z) :=
  match fmt with
  | EmptyString => Some []
  | String "%" (String "d" fmt') =>
      match args with
      | ArgInt i :: args' => (fmt_d i ++.) <$> format fmt' args'
      | _ => None
      end
  | String "%" (String "s" fmt') =>
      match args with
      | ArgStr buf :: args' =>
          s ← cstring buf; (s ++.) <$> format fmt' args'
      | _ => None
      end
  | String "%" (String "l" (String "l" (String "x" fmt'))) =>
      match args with
      | ArgU64 u :: args' => (fmt_llx u ++.) <$> format fmt' args'
      | _ => None
      end
  | String "%" (String "l" (String "l" (String "u" fmt'))) =>
      match args with
      | ArgU64 u :: args' => (fmt_llu u ++.) <$> format fmt' args'
      | _ => None
      end
  | String "%" (String "0" (String "2" (String "X" fmt'))) =>
      match args with
      | ArgInt i :: args' => (fmt_02X i ++.) <$> format fmt' args'
      | _ => None
      end
  | String "\" (String "n" fmt') => (10 ::.) <$> format fmt' args
  | String c fmt' => (code_of c ::.) <$> format fmt' args
  end.

(** [sprintf(dst, fmt, ...)]: the text and its terminating NUL are stored
    at the start of [dst]; [None] when they do not fit. *)
Definition sprintf (dst : list Z) (fmt : string) (args : list parg)
  : option (list Z) :=
  s ← format fmt args;
  if decide (length s < length dst)%nat
  then Some (s ++ [0] ++ drop (S (length s)) dst)
  else None.

End Text.

Import Text.

(** ** The two decoders *)

(** [utf16_to_cstring]: the loop over the first [len] units of [src].
    [ptr] is the offset of the write pointer in [dst]. *)
Fixpoint utf16_loop (units : list Z) (ptr : nat) (dst : list Z)
  : option (list Z) :=
  match units with
  | [] => Some dst
  | u :: rest =>
      let c := Z.land u 127 in
      if c =? 0 then utf16_loop rest ptr dst
      else if decide (ptr < length dst)%nat
           then utf16_loop rest (S ptr) (<[ptr := c]> dst)
           else None
  end.

(** The buffer [dst] after the call (the function returns [dst]); [None]
    when the loop reads past [src] or writes past [dst]. *)
Definition utf16_to_cstring (dst src : list Z) (len : nat) : option (list Z) :=
  if decide (len ≤ length src)%nat
  then utf16_loop (take len src) 0 dst
  else None.

Definition guid_format : string :=
  "%02X%02X%02X%02X-%02X%02X-%02X%02X-%02X%02X-%02X%02X%02X%02X%02X%02X".

Definition guid_order : list nat :=
  [3; 2; 1; 0; 5; 4; 7; 6; 9; 8; 15; 14; 13; 12; 11; 10]%nat.

(** [guid_to_cstring]: the buffer [dst] after the [sprintf]. *)
Definition guid_to_cstring (dst src : list Z) : option (list Z) :=
  args ← mapM (λ k, ArgInt <$> src !! k) guid_order;
  sprintf dst guid_format args.

(** ** The data of gpt/gpt.h *)

Module Gpt.

(** [gpt_partition_t]; the name field is read by the tool as 36 16-bit
    units. *)
Record gpt_partition_t := {
  type : list Z;
  guid : list Z;
  first : Z;
  last : Z;
  flags : Z;
  name : list Z
}.

(** [gpt_device_t]: the validity flag and the array of entry pointers.
    A pointer is [None] (NULL) or the address of an entry. *)
Record gpt_device_t := {
  valid : bool;
  partitions : list (option positive)
}.

(** What a [gpt_device_t*] gives access to: the structure itself and the
    entries its pointers lead to, which the codec owns and may change. *)
Record table := {
  device : gpt_device_t;
  entries : gmap positive gpt_partition_t
}.

End Gpt.

Import Gpt.

(** ** The platform *)

Inductive block_op := BLOCK_OP_GET_BLOCKSIZE | BLOCK_OP_GET_SIZE | BLOCK_OP_RR_PART.

(** Everything the tool calls and this file does not define. *)
Record platform := {
  (** the capacity of the slot array, from gpt/gpt.h *)
  PARTITIONS_COUNT : Z;
  (** [open(dev, O_RDWR)]: the descriptor, negative on failure *)
  sys_open : string → Z;
  (** the two geometry queries: return code and the value stored *)
  get_blocksize : Z → Z * Z;
  get_size : Z → Z * Z;
  (** the codec *)
  gpt_device_init : Z → Z → Z → Z * option table;
  gpt_device_sync : table → table;
  gpt_partition_add :
    table → list Z → list Z → list Z → Z → Z → Z → Z * table;
  gpt_partition_remove : table → list Z → Z * table;
  (** [mx_cprng_draw]: the bytes drawn *)
  mx_cprng_draw : nat → list Z;
  (** the byte found at each offset of an automatic array that the program
      has not initialised, by the name of the array *)
  garbage : string → nat → Z
}.

Definition wrap64 (z : Z) : Z := z mod 2 ^ 64.

(** ** The effects *)

Inductive event :=
| Stdout (s : string)
| Open (dev : string)
| Ioctl (fd : Z) (op : block_op)
| GptDeviceInit (fd blocksize blocks : Z)
| GptDeviceSync (gpt : table)
| GptPartitionAdd (gpt : table) (name type guid : list Z) (offset blocks flags : Z)
| GptPartitionRemove (gpt : table) (guid : list Z)
| GptDeviceRelease (gpt : table)
| CprngDraw (len : nat)
| Close (fd : Z).

(** Behaviours the C standard leaves undefined. *)
Inductive fault :=
| DivisionByZero
| OutOfBounds (index : Z)
| DanglingEntry
| BadBuffer.

Inductive outcome (A : Type) :=
| Return (a : A)
| Crash (f : fault)
| Blocked.
Arguments Return {A} a.
Arguments Crash {A} f.
Arguments Blocked {A}.

(** The state a run threads: the results of the pending [read(0, &ch, 1)]
    calls (return value and byte stored) and the calls made so far. *)
Record sys := {
  stdin : list (Z * Z);
  log : list event
}.

Definition prog (A : Type) : Type := sys → outcome A * sys.

Global Instance prog_ret : MRet prog := λ A a s, (Return a, s).

Global Instance prog_bind : MBind prog := λ A B k m s,
  match m s with
  | (Return a, s') => k a s'
  | (Crash f, s') => (Crash f, s')
  | (Blocked, s') => (Blocked, s')
  end.

Definition emit (e : event) : prog () := λ s,
  (Return (), {| stdin := stdin s; log := log s ++ [e] |}).

Definition crash {A} (f : fault) : prog A := λ s, (Crash f, s).

Definition checked {A} (f : fault) (o : option A) : prog A :=
  match o with
  | Some a => mret a
  | None => crash f
  end.

Definition printf (fmt : string) (args : list parg) : prog () :=
  t ← checked BadBuffer (format fmt args);
  emit (Stdout (text_of t)).

(** [cgetc]: the loop returns at the first read that fails or delivers a
    byte; on an input that never does, it never returns. *)
Fixpoint cgetc_loop (input : list (Z * Z)) : option (Z * list (Z * Z)) :=
  match input with
  | [] => None
  | (r, ch) :: rest =>
      if r <? 0 then Some (r, rest)
      else if r =? 1 then Some (ch mod 256, rest)
      else cgetc_loop rest
  end.

Definition cgetc : prog Z := λ s,
  match cgetc_loop (stdin s) with
  | Some (c, rest) => (Return c, {| stdin := rest; log := log s |})
  | None => (Blocked, {| stdin := []; log := log s |})
  end.

Section Tool.

Context (P : platform).

Definition open (dev : string) : prog Z :=
  emit (Open dev);; mret (sys_open P dev).

Definition close (fd : Z) : prog () := emit (Close fd).

Definition auto_array (var : string) (size : nat) : list Z :=
  map (λ k, garbage P var k mod 256) (seq 0 size).

Definition init (dev : string) (warn : bool) : prog (option (table * Z)) :=
  go ← (if warn then
          printf "Using %s... <enter> to continue, any other key to cancel\n"
                 [ArgStr (literal dev)];;
          c ← cgetc;
          mret (bool_decide (c = 10))
        else mret true);
  if negb go then mret None else
  fd ← open dev;
  if fd <? 0 then
    printf "error opening %s\n" [ArgStr (literal dev)];; mret None
  else
  emit (Ioctl fd BLOCK_OP_GET_BLOCKSIZE);;
  let '(rc, blocksize) := get_blocksize P fd in
  if rc <? 0 then
    printf "error getting block size\n" [];; close fd;; mret None
  else
  emit (Ioctl fd BLOCK_OP_GET_SIZE);;
  let '(rc, blocks) := get_size P fd in
  if rc <? 0 then
    printf "error getting device size\n" [];; close fd;; mret None
  else
  blocks ← (if blocksize =? 0 then crash DivisionByZero
            else mret (blocks / blocksize));
  printf "blocksize=%llu blocks=%llu\n" [ArgU64 blocksize; ArgU64 blocks];;
  emit (GptDeviceInit fd blocksize blocks);;
  let '(rc, gpt) := gpt_device_init P fd blocksize blocks in
  if rc <? 0 then
    printf "error initializing test\n" [];; close fd;; mret None
  else
  mret (gpt ≫= λ g, Some (g, fd)).

Definition commit (gpt : table) (fd : Z) : prog table :=
  printf "commit\n" [];;
  emit (GptDeviceSync gpt);;
  let gpt' := gpt_device_sync P gpt in
  emit (Ioctl fd BLOCK_OP_RR_PART);;
  mret gpt'.

(** [gpt->partitions[n]]: outside the array the read is undefined; slots
    the list does not spell out are NULL. *)
Definition slot (gpt : table) (n : Z) : prog (option positive) :=
  if (0 <=? n) && (n <? PARTITIONS_COUNT P)
  then mret (default None (partitions (device gpt) !! Z.to_nat n))
  else crash (OutOfBounds n).

(** [*p] *)
Definition entry (gpt : table) (p : positive) : prog gpt_partition_t :=
  checked DanglingEntry (entries gpt !! p).

(** The body of the [for] loop of [dump_partitions], [count] iterations
    before [i] reaches [PARTITIONS_COUNT]; the result is the final [i].
    The name buffer is cleared at each iteration, the guid buffer keeps
    what the previous iteration stored. *)
Fixpoint dump_loop (gpt : table) (count : nat) (i : Z) (guid_buf : list Z)
  : prog Z :=
  match count with
  | O => mret i
  | S count' =>
      p ← slot gpt i;
      match p with
      | None => mret i
      | Some p =>
          e ← entry gpt p;
          let name_buf := replicate 37 0 in
          name_buf ← checked BadBuffer (utf16_to_cstring name_buf (name e) 36);
          guid_buf ← checked BadBuffer (guid_to_cstring guid_buf (guid e));
          printf "%d: %s 0x%llx 0x%llx (%llx blocks) %s\n"
                 [ArgInt i; ArgStr name_buf; ArgU64 (first e); ArgU64 (last e);
                  ArgU64 (wrap64 (last e - first e + 1)); ArgStr guid_buf];;
          dump_loop gpt count' (i + 1) guid_buf
      end
  end.

Definition dump_partitions (dev : string) : prog () :=
  r ← init dev false;
  match r with
  | None => mret ()
  | Some (gpt, fd) =>
      if negb (valid (device gpt)) then
        printf "No valid GPT found\n" []
      else
        printf "Partition table is valid\n" [];;
        i ← dump_loop gpt (Z.to_nat (PARTITIONS_COUNT P)) 0 (auto_array "guid" 37);
        printf "Total: %d partitions\n" [ArgInt i];;
        emit (GptDeviceRelease gpt);;
        close fd
  end.

Definition add_partition (dev : string) (offset blocks : Z) (name : string)
  : prog () :=
  r ← init dev true;
  match r with
  | None => mret ()
  | Some (gpt, fd) =>
      gpt ← (if negb (valid (device gpt)) then commit gpt fd else mret gpt);
      let type := replicate 16 255 in
      emit (CprngDraw 16);;
      let guid := mx_cprng_draw P 16 in
      emit (GptPartitionAdd gpt (literal name) type guid offset blocks 0);;
      let '(rc, gpt) :=
        gpt_partition_add P gpt (literal name) type guid offset blocks 0 in
      gpt ← (if rc =? 0 then
               printf "add partition: name=%s offset=0x%llx blocks=0x%llx\n"
                      [ArgStr (literal name); ArgU64 offset; ArgU64 blocks];;
               commit gpt fd
             else mret gpt);
      emit (GptDeviceRelease gpt);;
      close fd
  end.

Definition remove_partition (dev : string) (n : Z) : prog () :=
  r ← init dev true;
  match r with
  | None => mret ()
  | Some (gpt, fd) =>
      if PARTITIONS_COUNT P <=? n then mret () else
      p ← slot gpt n;
      match p with
      | None => mret ()
      | Some p =>
          e ← entry gpt p;
          emit (GptPartitionRemove gpt (guid e));;
          let '(rc, gpt) := gpt_partition_remove P gpt (guid e) in
          gpt ← (if rc =? 0 then
                   let name_buf := auto_array "name" 37 in
                   e ← entry gpt p;
                   name_buf ← checked BadBuffer
                                (utf16_to_cstring name_buf (name e) 36);
                   printf "remove partition: n=%d name=%s\n"
                          [ArgInt n; ArgStr name_buf];;
                   commit gpt fd
                 else mret gpt);
          emit (GptDeviceRelease gpt);;
          close fd
      end
  end.

End Tool.

(** ** The vocabulary of the properties *)

Section Vocabulary.

Context (P : platform).

(** The text of a string literal or an [argv] string. *)
Definition chars (s : string) : list Z := default [] (cstring (literal s)).

(** Two upper-case hexadecimal digits. *)
Definition hex2 (b : Z) : list Z :=
  [hex_digit true (b / 16); hex_digit true (b mod 16)].

(** The name decoding in the words of its description: the high byte of
    each unit stripped, the rest truncated to 7 bits, null results
    dropped. *)
Definition strip_high_byte (u : Z) : Z := Z.land u 255.
Definition ascii7 (c : Z) : Z := Z.land c 127.
Definition display_name (units : list Z) : list Z :=
  filter (λ c, c ≠ 0) (map (λ u, ascii7 (strip_high_byte u)) units).

(** The characters the loop stores. *)
Definition kept (units : list Z) : list Z :=
  filter (λ c, c ≠ 0) (map (λ u, Z.land u 127) units).

(** The byte order and the grouping of the rendering, as lists of byte
    groups: [printed_groups] is the order of the [sprintf] arguments,
    [convention_groups] the order that reverses the first three groups
    and keeps the last eight bytes as they are. *)
Definition printed_groups (src : list Z) : list (list Z) :=
  [reverse (take 4 src); reverse (take 2 (drop 4 src));
   reverse (take 2 (drop 6 src)); reverse (take 2 (drop 8 src));
   reverse (drop 10 src)].

Definition convention_groups (src : list Z) : list (list Z) :=
  [reverse (take 4 src); reverse (take 2 (drop 4 src));
   reverse (take 2 (drop 6 src)); take 2 (drop 8 src); drop 10 src].

(** Groups of bytes as upper-case hexadecimal separated by hyphens. *)
Fixpoint hyphenated (groups : list (list Z)) : list Z :=
  match groups with
  | [] => []
  | [g] => g ≫= hex2
  | g :: rest => (g ≫= hex2) ++ 45 :: hyphenated rest
  end.

Definition is_byte (b : Z) : Prop := 0 ≤ b < 256.

(** The state [s] after the further events [es]. *)
Definition logged (s : sys) (es : list event) : sys :=
  {| stdin := stdin s; log := log s ++ es |}.

(** The line that asks for the confirmation. *)
Definition prompt (dev : string) : string :=
  text_of (codes_of "Using " ++ chars dev
           ++ codes_of "... <enter> to continue, any other key to cancel"
           ++ [10]).

(** The confirmation step of [init]. *)
Definition confirmed (warn : bool) (s : sys) : Prop :=
  if warn then ∃ rest, cgetc_loop (stdin s) = Some (10, rest) else True.

(** Kinds of calls, to count them in a log. *)
Definition is_close (e : event) : bool :=
  match e with Close _ => true | _ => false end.
Definition is_release (e : event) : bool :=
  match e with GptDeviceRelease _ => true | _ => false end.
Definition is_sync (e : event) : bool :=
  match e with GptDeviceSync _ => true | _ => false end.
Definition is_removal (e : event) : bool :=
  match e with GptPartitionRemove _ _ => true | _ => false end.
Definition is_insertion (e : event) : bool :=
  match e with GptPartitionAdd _ _ _ _ _ _ _ => true | _ => false end.

Definition count (f : event → bool) (es : list event) : nat :=
  length (List.filter f es).

(** The lines written to the standard output. *)
Definition stdout (es : list event) : list string :=
  es ≫= λ e, match e with Stdout t => [t] | _ => [] end.

(** Events that neither change nor release the table. *)
Definition quiet (e : event) : bool :=
  negb (is_sync e || is_removal e || is_insertion e || is_release e).

(** A line of output: the text and the newline. *)
Definition line (t : list Z) : string := text_of (t ++ [10]).

(** What [commit] does on the table [gpt]. *)
Definition commit_events (gpt : table) (fd : Z) : list event :=
  [Stdout (line (codes_of "commit")); GptDeviceSync gpt;
   Ioctl fd BLOCK_OP_RR_PART].

Definition add_message (name : string) (offset blocks : Z) : string :=
  text_of (codes_of "add partition: name=" ++ chars name
           ++ codes_of " offset=0x" ++ fmt_llx offset
           ++ codes_of " blocks=0x" ++ fmt_llx blocks ++ [10]).

(** The table handed to the codec's insertion: the loaded table, synced
    first when it is not valid. *)
Definition bootstrapped (gpt : table) : table :=
  if valid (device gpt) then gpt else gpt_device_sync P gpt.

Definition wildcard_type : list Z := replicate 16 255.

Definition insertion (gpt : table) (name : string) (offset blocks : Z)
  : Z * table :=
  gpt_partition_add P (bootstrapped gpt) (literal name) wildcard_type
                    (mx_cprng_draw P 16) offset blocks 0.

Definition insertion_event (gpt : table) (name : string) (offset blocks : Z)
  : event :=
  GptPartitionAdd (bootstrapped gpt) (literal name) wildcard_type
                  (mx_cprng_draw P 16) offset blocks 0.

(** The entries of the leading run of occupied slots. *)
Fixpoint leading (slots : list (option positive)) : list positive :=
  match slots with
  | Some p :: rest => p :: leading rest
  | _ => []
  end.

(** The slots a dump goes through: the occupied ones before the first
    empty slot, within the capacity. *)
Definition rendered_slots (gpt : table) : list positive :=
  leading (take (Z.to_nat (PARTITIONS_COUNT P)) (partitions (device gpt))).

(** The line of a slot: index, decoded name, first and last block, number
    of blocks, formatted unique identifier. *)
Definition dump_line (i : Z) (e : gpt_partition_t) : string :=
  text_of (fmt_d i ++ codes_of ": " ++ display_name (name e)
           ++ codes_of " 0x" ++ fmt_llx (first e)
           ++ codes_of " 0x" ++ fmt_llx (last e)
           ++ codes_of " (" ++ fmt_llx (wrap64 (last e - first e + 1))
           ++ codes_of " blocks) " ++ hyphenated (printed_groups (guid e))
           ++ [10]).

Fixpoint dump_lines (gpt : table) (i : Z) (ps : list positive) : list event :=
  match ps with
  | [] => []
  | p :: rest =>
      match entries gpt !! p with
      | Some e => Stdout (dump_line i e) :: dump_lines gpt (i + 1) rest
      | None => []
      end
  end.

Definition total_line (k : Z) : string :=
  text_of (codes_of "Total: " ++ fmt_d k ++ codes_of " partitions" ++ [10]).

(** An entry as the codec lays it out: a name of 36 units and an
    identifier of 16 bytes. *)
Definition well_formed (e : gpt_partition_t) : Prop :=
  length (name e) = 36%nat ∧ length (guid e) = 16%nat ∧ Forall is_byte (guid e).

Definition live (gpt : table) (ps : list positive) : Prop :=
  Forall (λ p, ∃ e, entries gpt !! p = Some e ∧ well_formed e) ps.

Definition remove_message (n : Z) (name : list Z) : string :=
  text_of (codes_of "remove partition: n=" ++ fmt_d n
           ++ codes_of " name=" ++ name ++ [10]).

(** Slot [k] belongs to the leading run when it and all slots before it
    are occupied. *)
Definition in_leading_run (slots : list (option positive)) (k : nat)
           (p : positive) : Prop :=
  slots !! k = Some (Some p)
  ∧ ∀ j, (j < k)%nat → ∃ q, slots !! j = Some (Some q).

End Vocabulary.

(** ** Concrete platforms and tables *)

Module Fixture.

Definition ascii_name (s : string) : list Z :=
  take 36 (codes_of s ++ replicate 36 0).

Definition entry_a : gpt_partition_t :=
  {| type := replicate 16 255; guid := seqZ 0 16;
     first := 34; last := 2081; flags := 0; name := ascii_name "boot" |}.

Definition entry_b : gpt_partition_t :=
  {| type := replicate 16 255; guid := seqZ 16 16;
     first := 2082; last := 4129; flags := 0; name := ascii_name "data" |}.

Definition heap : gmap positive gpt_partition_t :=
  <[1%positive := entry_a]> (<[2%positive := entry_b]> ∅).

Definition table_of (v : bool) (slots : list (option positive)) : table :=
  {| device := {| valid := v; partitions := slots |}; entries := heap |}.

(** A device of 8192 blocks of [blocksize] bytes on descriptor 3 whose
    codec loads [gpt]; [add_rc] and [remove_rc] are the codec's answers
    to an insertion and to a removal, neither of which changes the table;
    a sync marks the table valid; uninitialised arrays hold the byte
    [junk]. *)
Definition machine (capacity blocksize : Z) (gpt : table)
           (add_rc remove_rc junk : Z) : platform :=
  {| PARTITIONS_COUNT := capacity;
     sys_open := λ _, 3;
     get_blocksize := λ _, (0, blocksize);
     get_size := λ _, (0, 8192 * 512);
     gpt_device_init := λ _ _ _, (0, Some gpt);
     gpt_device_sync := λ t,
       {| device := {| valid := true; partitions := partitions (device t) |};
          entries := entries t |};
     gpt_partition_add := λ t _ _ _ _ _ _, (add_rc, t);
     gpt_partition_remove := λ t _, (remove_rc, t);
     mx_cprng_draw := λ n, replicate n 7;
     garbage := λ _ _, junk |}.

Definition start (keys : list (Z * Z)) : sys := {| stdin := keys; log := [] |}.

Definition enter : list (Z * Z) := [(1, 10)].

End Fixture.

Import Fixture.

(** ** The command line *)

Section CommandLine.

(** [strtoull(_, NULL, 0)] and [strtol(_, NULL, 0)] are the C library's. *)
Context (P : platform) (strtoull strtol : string → Z).

Definition DEFAULT_BLOCKDEV : string := "/dev/class/block/000".

(** The conversion of the [long] that [strtol] returns to the [int]
    parameter of [remove_partition]: the low 32 bits, two's complement. *)
Definition to_int (z : Z) : Z := (z + 2 ^ 31) mod 2 ^ 32 - 2 ^ 31.

(** [!strcmp(a, b)] *)
Definition streq (a b : string) : bool := bool_decide (chars a = chars b).

(** [argv[k]]; [argv] has [argc] strings. *)
Definition arg (argv : list string) (k : nat) : prog string :=
  checked (OutOfBounds (Z.of_nat k)) (argv !! k).

(** The code at the label [usage]. *)
Definition usage : prog Z :=
  printf "usage:\n" [];;
  printf "dump [<dev>]\n" [];;
  printf "add <offset> <blocks> <name> [<dev>]\n" [];;
  printf "remove <n> [<dev>]\n" [];;
  mret 0.

Definition main (argv : list string) : prog Z :=
  let argc := Z.of_nat (length argv) in
  let dev := DEFAULT_BLOCKDEV in
  if argc =? 1 then usage else
  cmd ← arg argv 1;
  if streq cmd "dump" then
    dev ← (if 2 <? argc then arg argv 2 else mret dev);
    dump_partitions P dev;;
    mret 0
  else if streq cmd "add" then
    if argc <? 5 then usage else
    dev ← (if 5 <? argc then arg argv 5 else mret dev);
    offset ← arg argv 2;
    blocks ← arg argv 3;
    name ← arg argv 4;
    add_partition P dev (strtoull offset) (strtoull blocks) name;;
    mret 0
  else if streq cmd "remove" then
    if argc <? 3 then usage else
    dev ← (if 3 <? argc then arg argv 3 else mret dev);
    n ← arg argv 2;
    remove_partition P dev (to_int (strtol n));;
    mret 0
  else usage.

End CommandLine.

(** ** Further vocabulary *)

(** Events that leave the table on the device as it is. *)
Definition read_only (e : event) : bool :=
  negb (is_sync e || is_removal e || is_insertion e).

Definition not_removal (e : event) : bool := negb (is_removal e).

Definition is_output (e : event) : bool :=
  match e with Stdout _ => true | _ => false end.

(** A program that does not read the input and only adds events that
    satisfy [ok] to the log, whatever its outcome. *)
Definition steady {A} (ok : event → bool) (m : prog A) : Prop :=
  ∀ s, ∃ es, (m s).2 = logged s es ∧ forallb ok es = true.

(** The four lines of the usage text. *)
Definition usage_lines : list event :=
  [Stdout (line (codes_of "usage:"));
   Stdout (line (codes_of "dump [<dev>]"));
   Stdout (line (codes_of "add <offset> <blocks> <name> [<dev>]"));
   Stdout (line (codes_of "remove <n> [<dev>]"))].

(** The type identifier of an EFI system partition,
    C12A7328-F81F-11D2-BA4B-00A0C93EC93B, as its 16 bytes lie on disk. *)
Definition esp_type_guid : list Z :=
  [0x28; 0x73; 0x2A; 0xC1; 0x1F; 0xF8; 0xD2; 0x11;
   0xBA; 0x4B; 0x00; 0xA0; 0xC9; 0x3E; 0xC9; 0x3B].

(** The characters of a rendered identifier. *)
Definition is_guid_char (c : Z) : Prop :=
  c = 45 ∨ 48 ≤ c ≤ 57 ∨ 65 ≤ c ≤ 70.


(** The three subcommands, the test that selects each (the [strcmp] chain
    of [main]) and the number of entries of [argv] each needs, the program
    name and the subcommand included. *)
Inductive command := Dump | Add | Remove.

Definition selects (cmd : string) (c : command) : Prop :=
  match c with
  | Dump => streq cmd "dump" = true
  | Add => streq cmd "dump" = false ∧ streq cmd "add" = true
  | Remove =>
      streq cmd "dump" = false ∧ streq cmd "add" = false
      ∧ streq cmd "remove" = true
  end.

Definition arity (c : command) : nat :=
  match c with Dump => 2 | Add => 5 | Remove => 3 end.

(** The command lines that [main] answers with the usage text. *)
Definition malformed (argv : list string) : Prop :=
  length argv = 1%nat
  ∨ ∃ cmd, argv !! 1%nat = Some cmd
           ∧ ((∀ c, ¬ selects cmd c)
              ∨ ∃ c, selects cmd c ∧ (length argv < arity c)%nat).

(** A program that returns 0 whenever it returns. *)
Definition returns_zero (m : prog Z) : Prop :=
  ∀ s z s', m s = (Return z, s') → z = 0.

(** The notification that asks the platform to read the table again. *)
Definition is_reread (e : event) : bool :=
  match e with Ioctl _ BLOCK_OP_RR_PART => true | _ => false end.

(** A read that ends the loop of [cgetc]: a failure or one byte. *)
Definition decisive (x : Z * Z) : Prop := x.1 < 0 ∨ x.1 = 1.

(** What [cgetc] returns for a decisive read. *)
Definition delivered (x : Z * Z) : Z := if x.1 <? 0 then x.1 else x.2 mod 256.

(** The state in which [init] opens the device: the state it starts in,
    after the prompt and the key when a confirmation is asked. *)
Definition after_confirmation (dev : string) (warn : bool) (s : sys) : sys :=
  if warn then
    match cgetc_loop (stdin s) with
    | Some (_, rest) =>
        {| stdin := rest; log := log s ++ [Stdout (prompt dev)] |}
    | None => s
    end
  else s.

Definition open_error (dev : string) : string :=
  text_of (codes_of "error opening " ++ chars dev ++ [10]).

Definition geometry_line (blocksize blocks : Z) : string :=
  text_of (codes_of "blocksize=" ++ fmt_llu blocksize
           ++ codes_of " blocks=" ++ fmt_llu blocks ++ [10]).

(** The three ways [init] fails on an open device [fd]: the block-size
    query fails, the size query fails, or the codec refuses the device. *)
Definition fails_after_open (P : platform) (fd : Z) : Prop :=
  (get_blocksize P fd).1 < 0
  ∨ (0 ≤ (get_blocksize P fd).1 ∧ (get_size P fd).1 < 0)
  ∨ (0 ≤ (get_blocksize P fd).1 ∧ 0 ≤ (get_size P fd).1
     ∧ (get_blocksize P fd).2 ≠ 0
     ∧ (gpt_device_init P fd (get_blocksize P fd).2
          ((get_size P fd).2 / (get_blocksize P fd).2)).1 < 0).

(** A slot array without an occupied slot after an empty one. *)
Definition packed (slots : list (option positive)) : Prop :=
  ∀ (i : nat) (p : positive),
    slots !! S i = Some (Some p) → ∃ q, slots !! i = Some (Some q).

(** A platform on which [open] returns [fd] and the two queries and the
    codec's initialisation return [rc_blocksize], [rc_size] and [rc_init];
    the device has 8192 blocks of 512 bytes and an empty, invalid table. *)
Definition faulty (fd rc_blocksize rc_size rc_init : Z) : platform :=
  {| PARTITIONS_COUNT := 128;
     sys_open := λ _, fd;
     get_blocksize := λ _, (rc_blocksize, 512);
     get_size := λ _, (rc_size, 8192 * 512);
     gpt_device_init := λ _ _ _, (rc_init, Some (table_of false []));
     gpt_device_sync := λ t, t;
     gpt_partition_add := λ t _ _ _ _ _ _, (-1, t);
     gpt_partition_remove := λ t _, (-1, t);
     mx_cprng_draw := λ n, replicate n 0;
     garbage := λ _ _, 0 |}.

(** A decimal reader, standing for the C library's in examples. *)
Definition digits_value (s : string) : Z :=
  fold_left (λ acc c, 10 * acc + (c - 48)) (codes_of s) 0.

(** ** Facts about text *)

Section TextFacts.

Lemma cstring_app_nul (s rest : list Z) :
  Forall (λ c, c ≠ 0) s → cstring (s ++ 0 :: rest) = Some s.
Proof.
  induction 1 as [|c s Hc _ IH]; simpl; [done|].
  destruct (Z.eqb_spec c 0) as [->|_]; [done|]. by rewrite IH.
Qed.

(** Without a NUL of its own, text is terminated by what follows it. *)
Lemma cstring_app (s rest : list Z) :
  Forall (λ c, c ≠ 0) s → cstring (s ++ rest) = (s ++.) <$> cstring rest.
Proof.
  induction 1 as [|c s Hc _ IH]; simpl.
  - by destruct (cstring rest).
  - destruct (Z.eqb_spec c 0) as [->|_]; [done|].
    rewrite IH. by destruct (cstring rest).
Qed.

Lemma cstring_None (s : list Z) :
  Forall (λ c, c ≠ 0) s → cstring s = None.
Proof.
  induction 1 as [|c s Hc _ IH]; simpl; [done|].
  destruct (Z.eqb_spec c 0) as [->|_]; [done|]. by rewrite IH.
Qed.

Lemma cstring_literal (s : string) : is_Some (cstring (literal s)).
Proof.
  unfold literal. induction (codes_of s) as [|c l IH]; simpl; [by eexists|].
  destruct (c =? 0); [by eexists|]. destruct IH as [t ->]. by eexists.
Qed.

Lemma cstring_chars (s : string) : cstring (literal s) = Some (chars s).
Proof. unfold chars. by destruct (cstring_literal s) as [t ->]. Qed.

Lemma hex_digit_nonzero (upper : bool) (d : Z) : 0 ≤ d → hex_digit upper d ≠ 0.
Proof. unfold hex_digit. destruct (Z.ltb_spec d 10), upper; lia. Qed.

Lemma fmt_02X_byte (b : Z) : 0 ≤ b < 256 → fmt_02X b = hex2 b.
Proof.
  intros Hb. unfold fmt_02X, hex2, hex_digits.
  assert (0 ≤ b / 16 < 16) as Hq
    by (split; [apply Z.div_pos | apply Z.div_lt_upper_bound]; lia).
  destruct (Z.eqb_spec (b / 16) 0) as [E|E].
  - rewrite E. done.
  - assert (b / 16 / 16 = 0) as -> by (apply Z.div_small; lia).
    simpl. rewrite (Z.mod_small (b / 16) 16) by lia. done.
Qed.

Lemma hex2_nonzero (b : Z) : 0 ≤ b → Forall (λ c, c ≠ 0) (hex2 b).
Proof.
  intros Hb. unfold hex2.
  repeat constructor; apply hex_digit_nonzero.
  - apply Z.div_pos; lia.
  - apply Z.mod_pos_bound; lia.
Qed.

End TextFacts.

(** ** Facts about the decoders *)

Section DecoderFacts.

Lemma display_name_kept (units : list Z) : display_name units = kept units.
Proof.
  unfold display_name, kept. f_equal. apply map_ext. intros u.
  unfold ascii7, strip_high_byte. by rewrite <- Z.land_assoc.
Qed.

Lemma kept_nonzero (units : list Z) : Forall (λ c, c ≠ 0) (kept units).
Proof. unfold kept. apply Forall_forall. intros c [Hc _]%list_elem_of_filter. done. Qed.

Lemma kept_ascii (units : list Z) : Forall (λ c, 1 ≤ c ≤ 127) (kept units).
Proof.
  unfold kept. apply Forall_forall.
  intros c [Hc [u [-> _]]%list_elem_of_fmap]%list_elem_of_filter.
  change 127 with (Z.ones 7) in *. rewrite Z.land_ones in * by lia.
  pose proof (Z.mod_pos_bound u (2 ^ 7)). change (Z.ones 7) with 127. lia.
Qed.

(** On units that are plain 7-bit characters or null, the decoding drops
    the null units and nothing else. *)
Lemma display_name_ascii (units : list Z) :
  Forall (λ u, 0 ≤ u < 128) units →
  display_name units = filter (λ u, u ≠ 0) units.
Proof.
  intros Hunits. unfold display_name. f_equal.
  induction Hunits as [|u units Hu _ IH]; simpl; [done|].
  rewrite IH. f_equal. unfold ascii7, strip_high_byte.
  change 255 with (Z.ones 8). change 127 with (Z.ones 7).
  rewrite !Z.land_ones by lia.
  rewrite (Z.mod_small u (2 ^ 8)) by lia. apply Z.mod_small. lia.
Qed.

Lemma kept_length (units : list Z) : (length (kept units) ≤ length units)%nat.
Proof.
  unfold kept. etrans; [apply length_filter|]. by rewrite length_map.
Qed.

Lemma utf16_loop_spec (units : list Z) :
  ∀ (ptr : nat) (dst : list Z),
    (ptr + length (kept units) ≤ length dst)%nat →
    utf16_loop units ptr dst =
    Some (take ptr dst ++ kept units ++ drop (ptr + length (kept units)) dst).
Proof.
  induction units as [|u rest IH]; intros ptr dst Hfit; simpl.
  - by rewrite Nat.add_0_r, take_drop.
  - unfold kept in *. simpl in *. rewrite filter_cons in *.
    destruct (Z.eqb_spec (Z.land u 127) 0) as [E|E];
      destruct (decide (Z.land u 127 ≠ 0)) as [E'|E']; try done.
    + by apply IH.
    + simpl in *. rewrite decide_True by lia.
      rewrite IH by (rewrite length_insert; lia).
      f_equal.
      rewrite (take_S_r _ _ (Z.land u 127))
        by (apply list_lookup_insert_eq; lia).
      rewrite take_insert_ge by lia.
      rewrite <- app_assoc. simpl. do 3 f_equal.
      rewrite drop_insert_lt by lia. f_equal. lia.
Qed.

(** What the decoder leaves in the buffer: the kept characters, then the
    bytes the buffer already held. *)
Lemma utf16_to_cstring_buffer (dst src : list Z) (len : nat) :
  (len ≤ length src)%nat →
  (length (kept (take len src)) ≤ length dst)%nat →
  utf16_to_cstring dst src len =
  Some (kept (take len src) ++ drop (length (kept (take len src))) dst).
Proof.
  intros Hsrc Hfit. unfold utf16_to_cstring.
  rewrite decide_True by done. by rewrite utf16_loop_spec.
Qed.

Lemma hyphenated_nonzero (groups : list (list Z)) :
  Forall (Forall is_byte) groups → Forall (λ c, c ≠ 0) (hyphenated groups).
Proof.
  assert (∀ g, Forall is_byte g → Forall (λ c, c ≠ 0) (g ≫= hex2)) as Hg.
  { induction 1 as [|b g [Hb _] _ IH]; [constructor|].
    rewrite bind_cons. apply Forall_app. split; [by apply hex2_nonzero | done]. }
  induction 1 as [|g rest H _ IH]; simpl; [done|].
  destruct rest as [|g' rest]; [by apply Hg|].
  apply Forall_app. split; [by apply Hg|]. by constructor.
Qed.

Lemma guid_to_cstring_buffer (dst src : list Z) :
  length src = 16%nat → Forall is_byte src → (36 < length dst)%nat →
  guid_to_cstring dst src =
  Some (hyphenated (printed_groups src) ++ 0 :: drop 37 dst).
Proof.
  intros Hlen Hbytes Hdst.
  do 17 (destruct src as [|? src]; try discriminate Hlen).
  repeat match goal with
         | H : Forall _ (_ :: _) |- _ =>
             apply Forall_cons in H; destruct H as [?%fmt_02X_byte H]
         end.
  unfold guid_to_cstring, sprintf. cbn -[fmt_02X drop].
  repeat match goal with H : fmt_02X _ = _ |- _ => rewrite H; clear H end.
  cbn -[drop hex_digit]. rewrite decide_True by lia. done.
Qed.

Lemma printed_groups_bytes (src : list Z) :
  Forall is_byte src → Forall (Forall is_byte) (printed_groups src).
Proof.
  intros Hbytes. unfold printed_groups.
  repeat (apply Forall_cons_2;
          [rewrite Forall_reverse;
           repeat first [apply Forall_take | apply Forall_drop]; exact Hbytes|]).
  apply Forall_nil_2.
Qed.

Lemma guid_text_cstring (src rest : list Z) :
  Forall is_byte src →
  cstring (hyphenated (printed_groups src) ++ 0 :: rest)
  = Some (hyphenated (printed_groups src)).
Proof.
  intros Hbytes. by apply cstring_app_nul, hyphenated_nonzero, printed_groups_bytes.
Qed.

Lemma guid_text_length (src : list Z) :
  length src = 16%nat → length (hyphenated (printed_groups src)) = 36%nat.
Proof.
  intros Hlen.
  do 17 (destruct src as [|? src]; try discriminate Hlen). reflexivity.
Qed.

(** Decoding a name of 36 units into a cleared buffer of 37 bytes. *)
Lemma utf16_cleared_buffer (src : list Z) :
  length src = 36%nat →
  ∃ buf, utf16_to_cstring (replicate 37 0) src 36 = Some buf
         ∧ cstring buf = Some (display_name src).
Proof.
  intros Hlen. rewrite display_name_kept.
  pose proof (kept_length src) as Hk.
  eexists. split.
  - rewrite utf16_to_cstring_buffer; rewrite ?take_ge by lia;
      rewrite ?length_replicate; try lia.
    reflexivity.
  - rewrite drop_replicate.
    replace (37 - length (kept src))%nat with (S (36 - length (kept src))) by lia.
    apply (cstring_app_nul (kept src)), kept_nonzero.
Qed.

End DecoderFacts.

(** ** Running the tool *)

Section Runs.

Context (P : platform).

Lemma logged_nil (s : sys) : logged s [] = s.
Proof. destruct s. unfold logged. simpl. by rewrite app_nil_r. Qed.

Lemma logged_logged (s : sys) (es es' : list event) :
  logged (logged s es) es' = logged s (es ++ es').
Proof. unfold logged. simpl. by rewrite app_assoc. Qed.

Lemma bind_run {A B} (m : prog A) (k : A → prog B) (s s' : sys) (a : A) :
  m s = (Return a, s') → (m ≫= k) s = k a s'.
Proof. intros H. unfold mbind, prog_bind. by rewrite H. Qed.

Lemma bind_crash {A B} (m : prog A) (k : A → prog B) (s s' : sys) (f : fault) :
  m s = (Crash f, s') → (m ≫= k) s = (Crash f, s').
Proof. intros H. unfold mbind, prog_bind. by rewrite H. Qed.

Lemma bind_blocked {A B} (m : prog A) (k : A → prog B) (s s' : sys) :
  m s = (Blocked, s') → (m ≫= k) s = (Blocked, s').
Proof. intros H. unfold mbind, prog_bind. by rewrite H. Qed.

Lemma emit_run (e : event) (s : sys) : emit e s = (Return (), logged s [e]).
Proof. done. Qed.

Lemma printf_run (fmt : string) (args : list parg) (t : list Z) (s : sys) :
  format fmt args = Some t →
  printf fmt args s = (Return (), logged s [Stdout (text_of t)]).
Proof. intros H. unfold printf. by rewrite H. Qed.

Lemma printf_crash (fmt : string) (args : list parg) (s : sys) :
  format fmt args = None → printf fmt args s = (Crash BadBuffer, s).
Proof. intros H. unfold printf. by rewrite H. Qed.

Lemma prompt_run (dev : string) (s : sys) :
  printf "Using %s... <enter> to continue, any other key to cancel\n"
         [ArgStr (literal dev)] s
  = (Return (), logged s [Stdout (prompt dev)]).
Proof.
  apply printf_run. cbn -[literal]. rewrite cstring_chars. reflexivity.
Qed.

Lemma cgetc_run (s : sys) (c : Z) (rest : list (Z * Z)) :
  cgetc_loop (stdin s) = Some (c, rest) →
  cgetc s = (Return c, {| stdin := rest; log := log s |}).
Proof. intros H. unfold cgetc. by rewrite H. Qed.

(** Any answer but the newline ends [init] before the device is opened. *)
Lemma init_declined (dev : string) (s : sys) (c : Z) (rest : list (Z * Z)) :
  cgetc_loop (stdin s) = Some (c, rest) → c ≠ 10 →
  init P dev true s
  = (Return None, {| stdin := rest; log := log s ++ [Stdout (prompt dev)] |}).
Proof.
  intros Hkey Hc. unfold init.
  erewrite bind_run; cycle 1.
  { erewrite bind_run; [|apply prompt_run].
    erewrite bind_run; [|by apply cgetc_run]. reflexivity. }
  by rewrite bool_decide_false.
Qed.

Lemma init_blocked (dev : string) (s : sys) :
  cgetc_loop (stdin s) = None →
  init P dev true s
  = (Blocked, {| stdin := []; log := log s ++ [Stdout (prompt dev)] |}).
Proof.
  intros Hkey. unfold init.
  erewrite bind_blocked; [reflexivity|].
  erewrite bind_run; [|apply prompt_run].
  erewrite bind_blocked; [reflexivity|].
  unfold cgetc. simpl. by rewrite Hkey.
Qed.

(** With a block size of zero the division is reached as soon as both
    queries succeed. *)
Lemma init_zero_blocksize (dev : string) (warn : bool) (s : sys)
      (rc rc' size : Z) :
  confirmed warn s →
  0 ≤ sys_open P dev →
  get_blocksize P (sys_open P dev) = (rc, 0) → 0 ≤ rc →
  get_size P (sys_open P dev) = (rc', size) → 0 ≤ rc' →
  (init P dev warn s).1 = Crash DivisionByZero.
Proof.
  intros Hgo Hfd Hbs Hrc Hsz Hrc'. unfold init.
  assert (∃ s', (if warn
                 then printf "Using %s... <enter> to continue, any other key to cancel\n"
                             [ArgStr (literal dev)];;
                      c ← cgetc; mret (bool_decide (c = 10))
                 else mret true) s = (Return true, s')) as [s' Hs'].
  { destruct warn.
    - destruct Hgo as [rest Hkey]. eexists.
      erewrite bind_run; [|apply prompt_run].
      erewrite bind_run; [|by apply cgetc_run]. reflexivity.
    - by eexists. }
  erewrite bind_run; [|exact Hs']. simpl.
  unfold open. erewrite bind_run; [|erewrite bind_run; [|apply emit_run]; reflexivity].
  destruct (Z.ltb_spec (sys_open P dev) 0); [lia|].
  erewrite bind_run; [|apply emit_run]. rewrite Hbs.
  destruct (Z.ltb_spec rc 0); [lia|].
  erewrite bind_run; [|apply emit_run]. rewrite Hsz.
  destruct (Z.ltb_spec rc' 0); [lia|].
  reflexivity.
Qed.

End Runs.

(** ** The index test of [remove_partition] *)

Section Workflows.

Context (P : platform).

Lemma remove_out_of_range (dev : string) (n : Z) (s s1 : sys)
      (gpt : table) (fd : Z) :
  init P dev true s = (Return (Some (gpt, fd)), s1) →
  PARTITIONS_COUNT P ≤ n →
  remove_partition P dev n s = (Return (), s1).
Proof.
  intros Hinit Hn. unfold remove_partition.
  erewrite bind_run; [|exact Hinit]. simpl.
  destruct (Z.leb_spec (PARTITIONS_COUNT P) n); [done|lia].
Qed.

Lemma remove_empty_slot (dev : string) (n : Z) (s s1 : sys)
      (gpt : table) (fd : Z) :
  init P dev true s = (Return (Some (gpt, fd)), s1) →
  0 ≤ n < PARTITIONS_COUNT P →
  default None (partitions (device gpt) !! Z.to_nat n) = None →
  remove_partition P dev n s = (Return (), s1).
Proof.
  intros Hinit Hn Hslot. unfold remove_partition.
  erewrite bind_run; [|exact Hinit]. simpl.
  destruct (Z.leb_spec (PARTITIONS_COUNT P) n); [lia|].
  unfold slot.
  destruct (Z.leb_spec 0 n); [|lia].
  destruct (Z.ltb_spec n (PARTITIONS_COUNT P)); [|lia].
  simpl. erewrite bind_run; [|reflexivity]. by rewrite Hslot.
Qed.

End Workflows.

(** ** What [init] may do *)

Lemma init_log (P : platform) (dev : string) (warn : bool) (s : sys) :
  ∃ es, log (init P dev warn s).2 = log s ++ es ∧ forallb quiet es = true.
Proof.
  unfold init, open, close, cgetc, printf, emit, checked, crash,
    mbind, mret, prog_bind, prog_ret.
  cbn -[fmt_llu literal cstring].
  rewrite !cstring_chars. cbn -[fmt_llu literal cstring].
  repeat case_match; simplify_eq/=;
    rewrite <- ?app_assoc; eexists; (split; [reflexivity|reflexivity]).
Qed.

Lemma count_app (f : event → bool) (es es' : list event) :
  count f (es ++ es') = (count f es + count f es')%nat.
Proof. unfold count. by rewrite List.filter_app, length_app. Qed.

Lemma count_cons (f : event → bool) (e : event) (es : list event) :
  count f (e :: es) = ((if f e then 1 else 0) + count f es)%nat.
Proof. unfold count. simpl. by destruct (f e). Qed.

Lemma count_quiet (f : event → bool) (es : list event) :
  (∀ e, quiet e = true → f e = false) →
  forallb quiet es = true → count f es = 0%nat.
Proof.
  intros Hf. unfold count. induction es as [|e es IH]; simpl; [done|].
  intros [He Hes]%andb_prop. rewrite (Hf e He). auto.
Qed.

(** [init] syncs nothing, removes nothing, inserts nothing. *)
Lemma init_writes_nothing (P : platform) (dev : string) (warn : bool) (s : sys) :
  count is_sync (log (init P dev warn s).2) = count is_sync (log s)
  ∧ count is_removal (log (init P dev warn s).2) = count is_removal (log s)
  ∧ count is_insertion (log (init P dev warn s).2) = count is_insertion (log s).
Proof.
  destruct (init_log P dev warn s) as (es & -> & Hq).
  rewrite !count_app.
  rewrite !(count_quiet _ es) by (done || by intros [] ?).
  lia.
Qed.

(** ** The run of [add_partition] *)

Section Commits.

Context (P : platform).

Lemma commit_run (gpt : table) (fd : Z) (s : sys) :
  commit P gpt fd s
  = (Return (gpt_device_sync P gpt), logged s (commit_events gpt fd)).
Proof.
  unfold commit, printf, emit, checked, mbind, mret, prog_bind, prog_ret, logged.
  simpl. by rewrite <- !app_assoc.
Qed.

Lemma add_partition_run (dev name : string) (offset blocks : Z)
      (s s1 : sys) (gpt : table) (fd : Z) :
  init P dev true s = (Return (Some (gpt, fd)), s1) →
  add_partition P dev offset blocks name s
  = (Return (),
     logged s1
       ((if valid (device gpt) then [] else commit_events gpt fd)
        ++ CprngDraw 16 :: insertion_event P gpt name offset blocks
        :: (let '(rc, gpt') := insertion P gpt name offset blocks in
            if rc =? 0
            then Stdout (add_message name offset blocks)
                 :: commit_events gpt' fd
                 ++ [GptDeviceRelease (gpt_device_sync P gpt'); Close fd]
            else [GptDeviceRelease gpt'; Close fd]))).
Proof.
  intros Hinit. unfold add_partition.
  erewrite bind_run; [|exact Hinit]. simpl.
  erewrite bind_run with (a := bootstrapped P gpt)
                         (s' := logged s1 (if valid (device gpt) then []
                                           else commit_events gpt fd)); cycle 1.
  { unfold bootstrapped. destruct (valid (device gpt)); simpl.
    - by rewrite logged_nil.
    - apply commit_run. }
  erewrite bind_run; [|apply emit_run].
  erewrite bind_run; [|apply emit_run].
  unfold insertion_event, insertion, wildcard_type.
  destruct (gpt_partition_add _ _ _ _ _ _ _ _) as [rc gpt'].
  destruct (rc =? 0).
  - erewrite bind_run; cycle 1.
    { erewrite bind_run; cycle 1.
      { apply printf_run. cbn -[fmt_llx literal cstring].
        rewrite cstring_chars. reflexivity. }
      apply commit_run. }
    erewrite bind_run; [|apply emit_run].
    unfold close. rewrite emit_run. rewrite !logged_logged.
    reflexivity.
  - erewrite bind_run; [|reflexivity].
    erewrite bind_run; [|apply emit_run].
    unfold close. rewrite emit_run. rewrite !logged_logged.
    reflexivity.
Qed.

(** An add that [init] lets through releases the table once and closes
    the device once. *)
Lemma add_partition_cleans_up (dev name : string) (offset blocks : Z)
      (s s1 : sys) (gpt : table) (fd : Z) :
  init P dev true s = (Return (Some (gpt, fd)), s1) →
  let r := add_partition P dev offset blocks name s in
  count is_close (log r.2) = S (count is_close (log s1))
  ∧ count is_release (log r.2) = S (count is_release (log s1)).
Proof.
  intros Hinit r. subst r.
  rewrite (add_partition_run dev name offset blocks s s1 gpt fd Hinit).
  cbn [snd logged log]. rewrite !count_app.
  destruct (insertion P gpt name offset blocks) as [rc gpt'].
  destruct (valid (device gpt)), (rc =? 0); cbn; lia.
Qed.

End Commits.

(** ** The runs of [dump_partitions] and [remove_partition] *)

Section Dump.

Context (P : platform).

Lemma dump_line_format (i : Z) (e : gpt_partition_t) (name_buf guid_buf : list Z) :
  cstring name_buf = Some (display_name (name e)) →
  cstring guid_buf = Some (hyphenated (printed_groups (guid e))) →
  printf "%d: %s 0x%llx 0x%llx (%llx blocks) %s\n"
         [ArgInt i; ArgStr name_buf; ArgU64 (first e); ArgU64 (last e);
          ArgU64 (wrap64 (last e - first e + 1)); ArgStr guid_buf]
  = emit (Stdout (dump_line i e)).
Proof.
  intros Hname Hguid. unfold printf.
  cbn -[fmt_d fmt_llx cstring wrap64 display_name hyphenated].
  rewrite Hname, Hguid. reflexivity.
Qed.

Lemma dump_loop_run (gpt : table) (count : nat) :
  ∀ (i : Z) (guid_buf : list Z) (s : sys),
    0 ≤ i → ((0 < count)%nat → i + Z.of_nat count ≤ PARTITIONS_COUNT P) →
    length guid_buf = 37%nat →
    let ps := leading (take count (drop (Z.to_nat i) (partitions (device gpt)))) in
    live gpt ps →
    dump_loop P gpt count i guid_buf s
    = (Return (i + Z.of_nat (length ps)), logged s (dump_lines gpt i ps)).
Proof.
  induction count as [|count IH]; intros i guid_buf s Hi Hcap Hbuf ps Hlive.
  - subst ps. simpl. by rewrite Z.add_0_r, logged_nil.
  - cbn [dump_loop]. unfold slot.
    rewrite (proj2 (Z.leb_le 0 i)), (proj2 (Z.ltb_lt i _)) by lia.
    cbn [andb]. erewrite bind_run; [|reflexivity]. subst ps.
    destruct (partitions (device gpt) !! Z.to_nat i) as [[p|]|] eqn:Hslot;
      cbn [from_option id].
    + rewrite (drop_S _ _ _ Hslot) in Hlive |- *.
      cbn [take leading length dump_lines] in Hlive |- *.
      apply Forall_cons in Hlive as [(e & He & Hname & Hguid & Hbytes) Hlive].
      unfold entry. rewrite He. cbn [checked].
      erewrite bind_run; [|reflexivity].
      destruct (utf16_cleared_buffer (name e) Hname) as (name_buf & -> & Hdec).
      cbn [checked]. erewrite bind_run; [|reflexivity].
      rewrite guid_to_cstring_buffer by (done || lia).
      cbn [checked]. erewrite bind_run; [|reflexivity].
      rewrite (dump_line_format i e _ _ Hdec
                 (guid_text_cstring (guid e) _ Hbytes)).
      erewrite bind_run; [|apply emit_run].
      rewrite IH; try lia.
      * replace (Z.to_nat (i + 1)) with (S (Z.to_nat i)) by lia.
        rewrite logged_logged. f_equal; [f_equal; lia|..]; reflexivity.
      * rewrite length_app, guid_text_length by done.
        cbn [length]. rewrite length_drop. lia.
      * replace (Z.to_nat (i + 1)) with (S (Z.to_nat i)) by lia. exact Hlive.
    + rewrite (drop_S _ _ _ Hslot). simpl.
      by rewrite Z.add_0_r, logged_nil.
    + rewrite drop_ge by (apply lookup_ge_None; exact Hslot). simpl.
      by rewrite Z.add_0_r, logged_nil.
Qed.

End Dump.

Section DumpAndRemove.

Context (P : platform).

Lemma auto_array_length (var : string) (size : nat) :
  length (auto_array P var size) = size.
Proof. unfold auto_array. by rewrite length_map, length_seq. Qed.

Lemma dump_lines_lookup (gpt : table) (ps : list positive) :
  ∀ (i : Z) (k : nat) (p : positive) (e : gpt_partition_t),
    live gpt ps → ps !! k = Some p → entries gpt !! p = Some e →
    dump_lines gpt i ps !! k = Some (Stdout (dump_line (i + Z.of_nat k) e)).
Proof.
  induction ps as [|q ps IH]; intros i k p e Hlive Hk He; [done|].
  apply Forall_cons in Hlive as [(e' & He' & _) Hlive].
  simpl. rewrite He'. destruct k as [|k]; simpl in *.
  - simplify_eq. by rewrite Z.add_0_r.
  - rewrite (IH (i + 1) k p e) by done. do 3 f_equal. lia.
Qed.

Lemma dump_partitions_run (dev : string) (s s1 : sys) (gpt : table) (fd : Z) :
  init P dev false s = (Return (Some (gpt, fd)), s1) →
  valid (device gpt) = true →
  live gpt (rendered_slots P gpt) →
  dump_partitions P dev s
  = (Return (),
     logged s1
       (Stdout (line (codes_of "Partition table is valid"))
        :: dump_lines gpt 0 (rendered_slots P gpt)
        ++ [Stdout (total_line (Z.of_nat (length (rendered_slots P gpt))));
            GptDeviceRelease gpt; Close fd])).
Proof.
  intros Hinit Hvalid Hlive. unfold dump_partitions.
  erewrite bind_run; [|exact Hinit]. cbn beta iota. rewrite Hvalid.
  cbn [negb]. erewrite bind_run; [|by apply printf_run].
  erewrite bind_run; cycle 1.
  { apply dump_loop_run; [lia | lia | apply auto_array_length|].
    rewrite drop_0. exact Hlive. }
  rewrite drop_0. fold (rendered_slots P gpt).
  erewrite bind_run; [|by apply printf_run].
  erewrite bind_run; [|apply emit_run].
  unfold close. rewrite emit_run, !logged_logged. reflexivity.
Qed.

Lemma remove_partition_run (dev : string) (n : Z) (s s1 : sys)
      (gpt gpt' : table) (fd : Z) (p : positive) (e e' : gpt_partition_t) :
  init P dev true s = (Return (Some (gpt, fd)), s1) →
  0 ≤ n < PARTITIONS_COUNT P →
  partitions (device gpt) !! Z.to_nat n = Some (Some p) →
  entries gpt !! p = Some e →
  gpt_partition_remove P gpt (guid e) = (0, gpt') →
  entries gpt' !! p = Some e' →
  length (name e') = 36%nat →
  remove_partition P dev n s
  = match cstring (drop (length (kept (name e'))) (auto_array P "name" 37)) with
    | Some tail =>
        (Return (),
         logged s1
           ([GptPartitionRemove gpt (guid e);
             Stdout (remove_message n (kept (name e') ++ tail))]
            ++ commit_events gpt' fd
            ++ [GptDeviceRelease (gpt_device_sync P gpt'); Close fd]))
    | None => (Crash BadBuffer, logged s1 [GptPartitionRemove gpt (guid e)])
    end.
Proof.
  intros Hinit Hn Hslot He Hrm He' Hname. unfold remove_partition.
  erewrite bind_run; [|exact Hinit]. cbn beta iota.
  rewrite (proj2 (Z.leb_gt _ _)) by lia. unfold slot.
  rewrite (proj2 (Z.leb_le 0 n)), (proj2 (Z.ltb_lt n _)) by lia.
  cbn [andb]. erewrite bind_run; [|reflexivity].
  rewrite Hslot. cbn [from_option id].
  unfold entry. rewrite He. cbn [checked].
  erewrite bind_run; [|reflexivity].
  erewrite bind_run; [|apply emit_run].
  rewrite Hrm. cbn [Z.eqb]. rewrite He'. cbn [checked].
  pose proof (kept_length (name e')) as Hk.
  assert (utf16_to_cstring (auto_array P "name" 37) (name e') 36
          = Some (kept (name e')
                  ++ drop (length (kept (name e'))) (auto_array P "name" 37)))
    as Hbuf.
  { rewrite utf16_to_cstring_buffer;
      rewrite ?auto_array_length, ?take_ge by lia; (done || lia). }
  assert (format "remove partition: n=%d name=%s\n"
            [ArgInt n;
             ArgStr (kept (name e')
                     ++ drop (length (kept (name e'))) (auto_array P "name" 37))]
          = (λ tail, codes_of "remove partition: n=" ++ fmt_d n
                     ++ codes_of " name=" ++ (kept (name e') ++ tail) ++ [10])
            <$> cstring (drop (length (kept (name e'))) (auto_array P "name" 37)))
    as Hfmt.
  { cbn -[fmt_d cstring auto_array kept].
    rewrite cstring_app by apply kept_nonzero.
    destruct (cstring (drop _ _)); [|done].
    cbn [fmap option_fmap option_map mbind option_bind].
    rewrite <- !app_assoc. reflexivity. }
  destruct (cstring (drop _ _)) as [tail|];
    cbn [fmap option_fmap option_map] in Hfmt.
  - erewrite bind_run; cycle 1.
    { erewrite bind_run; [|reflexivity].
      rewrite Hbuf. cbn [checked].
      erewrite bind_run; [|reflexivity].
      erewrite bind_run; [|by apply printf_run].
      apply commit_run. }
    erewrite bind_run; [|apply emit_run].
    unfold close. rewrite emit_run, !logged_logged. reflexivity.
  - erewrite bind_crash; [reflexivity|].
    erewrite bind_run; [|reflexivity].
    rewrite Hbuf. cbn [checked].
    erewrite bind_run; [|reflexivity].
    erewrite bind_crash; [reflexivity|].
    by apply printf_crash.
Qed.

Lemma dump_lines_count (f : event → bool) (gpt : table) (ps : list positive) :
  (∀ t, f (Stdout t) = false) →
  ∀ i, count f (dump_lines gpt i ps) = 0%nat.
Proof.
  intros Hf. induction ps as [|p ps IH]; intros i; simpl; [done|].
  destruct (entries gpt !! p); [|done].
  unfold count in *. simpl. rewrite Hf. apply IH.
Qed.

(** So does a dump of a valid table. *)
Lemma dump_partitions_cleans_up (dev : string) (s s1 : sys) (gpt : table) (fd : Z) :
  init P dev false s = (Return (Some (gpt, fd)), s1) →
  valid (device gpt) = true →
  live gpt (rendered_slots P gpt) →
  let r := dump_partitions P dev s in
  count is_close (log r.2) = S (count is_close (log s1))
  ∧ count is_release (log r.2) = S (count is_release (log s1)).
Proof.
  intros Hinit Hvalid Hlive r. subst r.
  rewrite (dump_partitions_run dev s s1 gpt fd Hinit Hvalid Hlive).
  cbn [snd logged log].
  rewrite !count_app, !count_cons, !count_app, !dump_lines_count by done.
  cbn. lia.
Qed.

End DumpAndRemove.

Section LeadingRun.

Lemma leading_lookup (slots : list (option positive)) :
  ∀ (k : nat) (p : positive),
    leading slots !! k = Some p ↔ in_leading_run slots k p.
Proof.
  unfold in_leading_run.
  induction slots as [|[q|] slots IH]; intros k p; simpl.
  - split; [done|]. by intros [? _].
  - destruct k as [|k]; simpl.
    + split.
      * intros [= ->]. split; [done|]. intros j Hj. lia.
      * by intros [[= ->] _].
    + rewrite IH. split.
      * intros [Hk Hbefore]. split; [done|].
        intros [|j] Hj; simpl; [by eexists|]. apply Hbefore. lia.
      * intros [Hk Hbefore]. split; [done|].
        intros j Hj. apply (Hbefore (S j)). lia.
  - split; [done|]. intros [Hk Hbefore].
    destruct k as [|k]; [done|].
    destruct (Hbefore 0%nat ltac:(lia)) as [q Hq]. done.
Qed.


End LeadingRun.

(** ** The claims *)

(** C1: the index test of [remove_partition] has an upper bound only.  In
    every confirmed remove whose index is negative (and so below the
    capacity), the operation does not return as a no-op: it goes on to read
    [gpt->partitions[n]], outside the slot array. *)
Theorem remove_negative_index_reads_outside_the_array
        (P : platform) (dev : string) (n : Z) (s s1 : sys)
        (gpt : table) (fd : Z) :
  init P dev true s = (Return (Some (gpt, fd)), s1) →
  n < 0 → n < PARTITIONS_COUNT P →
  remove_partition P dev n s = (Crash (OutOfBounds n), s1).
Proof.
  intros Hinit Hn Hcap. unfold remove_partition.
  erewrite bind_run; [|exact Hinit]. simpl.
  destruct (Z.leb_spec (PARTITIONS_COUNT P) n); [lia|].
  unfold slot.
  destruct (Z.leb_spec 0 n); [lia|]. reflexivity.
Qed.

Lemma remove_negative_index_reads_outside_the_array_witness :
  let gpt := table_of true [Some 1; Some 2]%positive in
  let P := machine 128 512 gpt 0 0 0 in
  let dev := "/dev/class/block/000"%string in
  let s1 := (init P dev true (start enter)).2 in
  init P dev true (start enter) = (Return (Some (gpt, 3)), s1)
  ∧ -1 < 0 ∧ -1 < PARTITIONS_COUNT P
  ∧ remove_partition P dev (-1) (start enter) = (Crash (OutOfBounds (-1)), s1).
Proof.
  intros gpt P dev s1.
  split; [reflexivity|]. split; [lia|]. split; [simpl; lia|].
  apply (remove_negative_index_reads_outside_the_array P dev (-1)
           (start enter) s1 gpt 3); [reflexivity | lia | simpl; lia].
Defined.

(** C2: a table whose validity flag is false holds no entry (there are no
    partitions to remove).  On such a table a confirmed remove with any
    index from 0 up returns right after [init], having removed nothing and
    committed nothing, as the claim says; with a negative index it does
    not: the index test has no lower bound, and the operation reads
    [gpt->partitions[n]] outside the slot array. *)
Theorem remove_on_invalid_table_misses_negative_indices
        (P : platform) (dev : string) (n : Z) (s s1 : sys)
        (gpt : table) (fd : Z) :
  init P dev true s = (Return (Some (gpt, fd)), s1) →
  valid (device gpt) = false →
  Forall (λ p, p = None) (partitions (device gpt)) →
  (0 ≤ n → remove_partition P dev n s = (Return (), s1))
  ∧ (n < 0 → n < PARTITIONS_COUNT P →
     remove_partition P dev n s = (Crash (OutOfBounds n), s1))
  ∧ count is_removal (log s1) = count is_removal (log s)
  ∧ count is_sync (log s1) = count is_sync (log s).
Proof.
  intros Hinit _ Hempty. split; [|split].
  - intros Hn. destruct (Z.le_gt_cases (PARTITIONS_COUNT P) n).
    + by eapply remove_out_of_range.
    + eapply remove_empty_slot; [done|lia|].
      destruct (partitions (device gpt) !! Z.to_nat n) as [p|] eqn:E; [|done].
      simpl. by apply (Forall_lookup_1 _ _ _ _ Hempty E).
  - intros Hn Hcap. unfold remove_partition.
    erewrite bind_run; [|exact Hinit]. cbn beta iota.
    rewrite (proj2 (Z.leb_gt _ _)) by lia. unfold slot.
    rewrite (proj2 (Z.leb_gt 0 n)) by lia. reflexivity.
  - pose proof (init_writes_nothing P dev true s) as (Hs & Hr & _).
    rewrite Hinit in Hs, Hr. simpl in Hs, Hr. done.
Qed.

Lemma remove_on_invalid_table_misses_negative_indices_witness :
  let gpt := table_of false [] in
  let P := machine 128 512 gpt 0 0 0 in
  let dev := "/dev/class/block/000"%string in
  let s := start enter in
  let s1 := (init P dev true s).2 in
  init P dev true s = (Return (Some (gpt, 3)), s1)
  ∧ valid (device gpt) = false
  ∧ Forall (λ p, p = None) (partitions (device gpt))
  ∧ (0 ≤ -1 → remove_partition P dev (-1) s = (Return (), s1))
  ∧ (-1 < 0 → -1 < PARTITIONS_COUNT P →
     remove_partition P dev (-1) s = (Crash (OutOfBounds (-1)), s1))
  ∧ count is_removal (log s1) = count is_removal (log s)
  ∧ count is_sync (log s1) = count is_sync (log s).
Proof.
  intros gpt P dev s s1.
  assert (Forall (λ p : option positive, p = None) (partitions (device gpt)))
    as Hempty by constructor.
  split; [reflexivity|]. split; [reflexivity|]. split; [exact Hempty|].
  apply (remove_on_invalid_table_misses_negative_indices P dev (-1)
           s s1 gpt 3); [reflexivity | reflexivity | exact Hempty].
Defined.

(** The two runs of that witness: index 0 is the silent abort, index -1
    the read outside the array. *)
Example remove_on_a_blank_disk :
  let P := machine 128 512 (table_of false []) 0 0 0 in
  let dev := "/dev/class/block/000"%string in
  remove_partition P dev 0 (start enter)
  = (Return (), (init P dev true (start enter)).2)
  ∧ (remove_partition P dev (-1) (start enter)).1 = Crash (OutOfBounds (-1)).
Proof. split; reflexivity. Qed.

(** C3: three paths return between a successful [init] and the release
    and close at the end of the function.  A dump of a device whose table is
    invalid, a remove with an index at or above the capacity, and a remove
    of an empty slot each end with the descriptor that [init] opened still
    open (no [close]) and the table not released. *)
Theorem early_returns_skip_release_and_close :
  let dev := "/dev/class/block/000"%string in
  let blank := machine 128 512 (table_of false []) 0 0 0 in
  let disk := machine 128 512 (table_of true [Some 1; Some 2]%positive) 0 0 0 in
  let unclosed (r : outcome () * sys) :=
    r.1 = Return ()
    ∧ count is_close (log r.2) = 0%nat ∧ count is_release (log r.2) = 0%nat in
  (init blank dev false (start [])).1 = Return (Some (table_of false [], 3))
  ∧ unclosed (dump_partitions blank dev (start []))
  ∧ (init disk dev true (start enter)).1
    = Return (Some (table_of true [Some 1; Some 2]%positive, 3))
  ∧ unclosed (remove_partition disk dev 128 (start enter))
  ∧ unclosed (remove_partition disk dev 5 (start enter)).
Proof. repeat split; reflexivity. Qed.

(** C4: the rendering attempts the canonical text of an identifier -- the
    first three groups byte-swapped, hyphens after 4, 2, 2 and 2 bytes --
    and misses it on the last eight bytes, which it reverses too (bytes 9,
    8 and 15 down to 10) where the claim keeps them in their order.  The
    type identifier of an EFI system partition,
    C12A7328-F81F-11D2-BA4B-00A0C93EC93B, is printed as
    C12A7328-F81F-11D2-4BBA-3BC93EC9A000. *)
Theorem guid_rendering_misses_the_last_eight_bytes :
  text_of <$> (guid_to_cstring (replicate 37 0) esp_type_guid ≫= cstring)
  = Some "C12A7328-F81F-11D2-4BBA-3BC93EC9A000"%string
  ∧ text_of (hyphenated (convention_groups esp_type_guid))
    = "C12A7328-F81F-11D2-BA4B-00A0C93EC93B"%string
  ∧ guid_to_cstring (replicate 37 0) esp_type_guid ≫= cstring
    ≠ Some (hyphenated (convention_groups esp_type_guid)).
Proof.
  split; [reflexivity|]. split; [reflexivity|]. vm_compute. discriminate.
Qed.

(** The same on the identifier 00 01 ... 0F. *)
Example guid_rendering_is_not_the_convention :
  guid_to_cstring (replicate 37 0) (seqZ 0 16) ≫= cstring
  ≠ Some (hyphenated (convention_groups (seqZ 0 16))).
Proof. vm_compute. discriminate. Qed.

(** What the [sprintf] prints, for every 16-byte identifier: the bytes in
    the order of its arguments, that is each of the five groups reversed,
    the last two included. *)
Lemma guid_rendering_reverses_every_group (dst src : list Z) :
  length src = 16%nat → Forall is_byte src → (36 < length dst)%nat →
  guid_to_cstring dst src ≫= cstring = Some (hyphenated (printed_groups src)).
Proof.
  intros Hlen Hbytes Hdst.
  rewrite guid_to_cstring_buffer by done.
  by apply guid_text_cstring.
Qed.




(** C6: in every add invocation that [init] lets through, the codec's
    insertion is called once, on the loaded table if it is valid and
    otherwise on the result of committing the loaded table first (that
    commit being the only one before the insertion); after the insertion
    there is one commit, of the table the codec returned, if the codec
    returned 0, and for any other return value nothing but the release of
    that table and the close: no commit, no further call on the table. *)
Theorem add_commits_around_the_insertion
        (P : platform) (dev name : string) (offset blocks : Z)
        (s s1 : sys) (gpt : table) (fd : Z) :
  init P dev true s = (Return (Some (gpt, fd)), s1) →
  ∃ before after : list event,
    add_partition P dev offset blocks name s
    = (Return (),
       logged s1 (before ++ insertion_event P gpt name offset blocks :: after))
    ∧ count is_insertion before = 0%nat
    ∧ count is_insertion after = 0%nat
    ∧ List.filter is_sync before
      = (if valid (device gpt) then [] else [GptDeviceSync gpt])
    ∧ bootstrapped P gpt
      = (if valid (device gpt) then gpt else gpt_device_sync P gpt)
    ∧ ((insertion P gpt name offset blocks).1 = 0 →
       List.filter is_sync after
       = [GptDeviceSync (insertion P gpt name offset blocks).2])
    ∧ ((insertion P gpt name offset blocks).1 ≠ 0 →
       after = [GptDeviceRelease (insertion P gpt name offset blocks).2;
                Close fd]).
Proof.
  intros Hinit.
  exists ((if valid (device gpt) then [] else commit_events gpt fd)
          ++ [CprngDraw 16]).
  eexists. split.
  { rewrite (add_partition_run P dev name offset blocks s s1 gpt fd Hinit).
    rewrite <- app_assoc. reflexivity. }
  destruct (insertion P gpt name offset blocks) as [rc gpt'].
  repeat split.
  - by destruct (valid (device gpt)).
  - by destruct (rc =? 0).
  - by destruct (valid (device gpt)).
  - simpl. intros ->. reflexivity.
  - simpl. intros Hrc. by destruct (Z.eqb_spec rc 0).
Qed.

Lemma add_commits_around_the_insertion_witness :
  let gpt := table_of false [] in
  let P := machine 128 512 gpt 0 0 0 in
  let dev := "/dev/class/block/000"%string in
  let s := start enter in
  let s1 := (init P dev true s).2 in
  init P dev true s = (Return (Some (gpt, 3)), s1)
  ∧ ∃ before after : list event,
      add_partition P dev 34 2048 "boot" s
      = (Return (),
         logged s1 (before ++ insertion_event P gpt "boot" 34 2048 :: after))
      ∧ count is_insertion before = 0%nat
      ∧ count is_insertion after = 0%nat
      ∧ List.filter is_sync before
        = (if valid (device gpt) then [] else [GptDeviceSync gpt])
      ∧ bootstrapped P gpt
        = (if valid (device gpt) then gpt else gpt_device_sync P gpt)
      ∧ ((insertion P gpt "boot" 34 2048).1 = 0 →
         List.filter is_sync after
         = [GptDeviceSync (insertion P gpt "boot" 34 2048).2])
      ∧ ((insertion P gpt "boot" 34 2048).1 ≠ 0 →
         after = [GptDeviceRelease (insertion P gpt "boot" 34 2048).2;
                  Close 3]).
Proof.
  intros gpt P dev s s1. split; [reflexivity|].
  apply (add_commits_around_the_insertion P dev "boot" 34 2048 s s1 gpt 3).
  reflexivity.
Defined.

(** C7: for every name field of 36 units, decoded into a cleared buffer as
    the dump does, the text displayed is the units in their order, each
    with its high byte stripped and truncated to 7 bits, without the units
    that are null after this; every character displayed is 7-bit ASCII;
    and when the units are 7-bit characters and nulls to begin with, the
    text is the field without its null units. *)
Theorem utf16_display_decoding (src : list Z) :
  length src = 36%nat →
  utf16_to_cstring (replicate 37 0) src 36 ≫= cstring = Some (display_name src)
  ∧ Forall (λ c, 1 ≤ c ≤ 127) (display_name src)
  ∧ (Forall (λ u, 0 ≤ u < 128) src →
     display_name src = filter (λ u, u ≠ 0) src).
Proof.
  intros Hlen. split; [|split].
  - destruct (utf16_cleared_buffer src Hlen) as (buf & -> & Hbuf). exact Hbuf.
  - rewrite display_name_kept. apply kept_ascii.
  - apply display_name_ascii.
Qed.

Lemma utf16_display_decoding_witness :
  let src := ascii_name "boot" in
  length src = 36%nat
  ∧ utf16_to_cstring (replicate 37 0) src 36 ≫= cstring = Some (display_name src)
  ∧ Forall (λ c, 1 ≤ c ≤ 127) (display_name src)
  ∧ (Forall (λ u, 0 ≤ u < 128) src →
     display_name src = filter (λ u, u ≠ 0) src).
Proof.
  intros src. split; [reflexivity|].
  apply (utf16_display_decoding src). reflexivity.
Defined.

(** C8: for add and for remove, when the key read at the confirmation
    prompt is anything but the newline (10) -- another byte, or the negative
    result of a failed read -- the operation returns having written the
    prompt and nothing else: the device is not opened and no codec or device
    call is made. *)
Theorem declined_confirmation_touches_nothing
        (P : platform) (dev name : string) (offset blocks n : Z)
        (s : sys) (c : Z) (rest : list (Z * Z)) :
  cgetc_loop (stdin s) = Some (c, rest) → c ≠ 10 →
  add_partition P dev offset blocks name s
  = (Return (), {| stdin := rest; log := log s ++ [Stdout (prompt dev)] |})
  ∧ remove_partition P dev n s
    = (Return (), {| stdin := rest; log := log s ++ [Stdout (prompt dev)] |}).
Proof.
  intros Hkey Hc. split.
  - unfold add_partition. erewrite bind_run; [|by eapply init_declined]. done.
  - unfold remove_partition. erewrite bind_run; [|by eapply init_declined]. done.
Qed.

Lemma declined_confirmation_touches_nothing_witness :
  let P := machine 128 512 (table_of true [Some 1%positive]) 0 0 0 in
  let s := start [(0, 0); (1, 113)] in
  cgetc_loop (stdin s) = Some (113, []) ∧ 113 ≠ 10
  ∧ add_partition P "/dev/class/block/000" 34 2048 "boot" s
    = (Return (), {| stdin := [];
                     log := log s ++ [Stdout (prompt "/dev/class/block/000")] |})
  ∧ remove_partition P "/dev/class/block/000" 0 s
    = (Return (), {| stdin := [];
                     log := log s ++ [Stdout (prompt "/dev/class/block/000")] |}).
Proof.
  intros P s.
  split; [reflexivity|]. split; [lia|].
  apply (declined_confirmation_touches_nothing P "/dev/class/block/000" "boot"
           34 2048 0 s 113 []); [reflexivity | lia].
Defined.

(** C9: [init] divides the device size by the block size without testing
    the block size: whenever the confirmation passes, the device opens and
    both geometry queries succeed, a block size of 0 makes the run end in
    a division by zero. *)
Theorem zero_blocksize_divides_by_zero
        (P : platform) (dev : string) (warn : bool) (s : sys)
        (rc rc' size : Z) :
  confirmed warn s →
  0 ≤ sys_open P dev →
  get_blocksize P (sys_open P dev) = (rc, 0) → 0 ≤ rc →
  get_size P (sys_open P dev) = (rc', size) → 0 ≤ rc' →
  (init P dev warn s).1 = Crash DivisionByZero.
Proof. apply init_zero_blocksize. Qed.

Lemma zero_blocksize_divides_by_zero_witness :
  let P := machine 128 0 (table_of true []) 0 0 0 in
  confirmed true (start enter)
  ∧ 0 ≤ sys_open P "/dev/class/block/000"
  ∧ get_blocksize P (sys_open P "/dev/class/block/000") = (0, 0)
  ∧ get_size P (sys_open P "/dev/class/block/000") = (0, 8192 * 512)
  ∧ (init P "/dev/class/block/000" true (start enter)).1 = Crash DivisionByZero.
Proof.
  intros P.
  assert (confirmed true (start enter)) as Hgo by (by exists []).
  split; [exact Hgo|]. split; [simpl; lia|]. split; [reflexivity|].
  split; [reflexivity|].
  apply (zero_blocksize_divides_by_zero P "/dev/class/block/000" true
           (start enter) 0 0 (8192 * 512) Hgo);
    [simpl; lia | reflexivity | lia | reflexivity | lia].
Defined.

(** C10: the name decoder stores the kept characters, none of which is
    NUL, and leaves the rest of the destination as it was, so the string it
    returns is terminated by whatever byte of the buffer's old contents is
    the first NUL after the kept characters, or not at all.  The remove
    operation decodes into an array it has not initialised: when the codec
    has removed the entry, the line printed carries the decoded name
    followed by what the array held up to its first zero byte, and if the
    array holds no zero byte there, the read runs off its end. *)
Theorem decoder_leaves_termination_to_the_caller
        (P : platform) (dev : string) (n : Z) (s s1 : sys)
        (gpt gpt' : table) (fd : Z) (p : positive) (e e' : gpt_partition_t) :
  init P dev true s = (Return (Some (gpt, fd)), s1) →
  0 ≤ n < PARTITIONS_COUNT P →
  partitions (device gpt) !! Z.to_nat n = Some (Some p) →
  entries gpt !! p = Some e →
  gpt_partition_remove P gpt (guid e) = (0, gpt') →
  entries gpt' !! p = Some e' →
  length (name e') = 36%nat →
  (∀ dst : list Z,
     (length (kept (name e')) ≤ length dst)%nat →
     utf16_to_cstring dst (name e') 36
     = Some (kept (name e') ++ drop (length (kept (name e'))) dst)
     ∧ cstring (kept (name e') ++ drop (length (kept (name e'))) dst)
       = (kept (name e') ++.) <$> cstring (drop (length (kept (name e'))) dst))
  ∧ Forall (λ c, c ≠ 0) (kept (name e'))
  ∧ remove_partition P dev n s
    = match cstring (drop (length (kept (name e'))) (auto_array P "name" 37)) with
      | Some tail =>
          (Return (),
           logged s1
             ([GptPartitionRemove gpt (guid e);
               Stdout (remove_message n (kept (name e') ++ tail))]
              ++ commit_events gpt' fd
              ++ [GptDeviceRelease (gpt_device_sync P gpt'); Close fd]))
      | None => (Crash BadBuffer, logged s1 [GptPartitionRemove gpt (guid e)])
      end.
Proof.
  intros Hinit Hn Hslot He Hrm He' Hname. split; [|split].
  - intros dst Hdst. split.
    + rewrite utf16_to_cstring_buffer; rewrite ?take_ge by lia; (done || lia).
    + apply cstring_app, kept_nonzero.
  - apply kept_nonzero.
  - by eapply remove_partition_run.
Qed.

Lemma decoder_leaves_termination_to_the_caller_witness :
  let gpt := table_of true [Some 1%positive] in
  let P := machine 128 512 gpt 0 0 120 in
  let dev := "/dev/class/block/000"%string in
  let s := start enter in
  let s1 := (init P dev true s).2 in
  let e := entry_a in
  init P dev true s = (Return (Some (gpt, 3)), s1)
  ∧ 0 ≤ 0 < PARTITIONS_COUNT P
  ∧ partitions (device gpt) !! Z.to_nat 0 = Some (Some 1%positive)
  ∧ entries gpt !! 1%positive = Some e
  ∧ gpt_partition_remove P gpt (guid e) = (0, gpt)
  ∧ length (name e) = 36%nat
  ∧ (∀ dst : list Z,
       (length (kept (name e)) ≤ length dst)%nat →
       utf16_to_cstring dst (name e) 36
       = Some (kept (name e) ++ drop (length (kept (name e))) dst)
       ∧ cstring (kept (name e) ++ drop (length (kept (name e))) dst)
         = (kept (name e) ++.) <$> cstring (drop (length (kept (name e))) dst))
  ∧ Forall (λ c, c ≠ 0) (kept (name e))
  ∧ remove_partition P dev 0 s
    = match cstring (drop (length (kept (name e))) (auto_array P "name" 37)) with
      | Some tail =>
          (Return (),
           logged s1
             ([GptPartitionRemove gpt (guid e);
               Stdout (remove_message 0 (kept (name e) ++ tail))]
              ++ commit_events gpt 3
              ++ [GptDeviceRelease (gpt_device_sync P gpt); Close 3]))
      | None => (Crash BadBuffer, logged s1 [GptPartitionRemove gpt (guid e)])
      end.
Proof.
  intros gpt P dev s s1 e.
  split; [reflexivity|]. split; [simpl; lia|]. split; [reflexivity|].
  split; [reflexivity|]. split; [reflexivity|]. split; [reflexivity|].
  apply (decoder_leaves_termination_to_the_caller P dev 0 s s1 gpt gpt 3
           1%positive e e);
    [reflexivity | simpl; lia | reflexivity | reflexivity | reflexivity
    | reflexivity | reflexivity].
Defined.

(** On that platform the array holds no zero byte and the run ends in the
    fault; where the array happens to hold zeroes the name is printed. *)
Example remove_with_dirty_stack :
  (remove_partition (machine 128 512 (table_of true [Some 1%positive]) 0 0 120)
     "/dev/class/block/000" 0 (start enter)).1 = Crash BadBuffer.
Proof. reflexivity. Qed.

Example remove_with_clean_stack :
  let r := remove_partition
             (machine 128 512 (table_of true [Some 1%positive]) 0 0 0)
             "/dev/class/block/000" 0 (start enter) in
  r.1 = Return ()
  ∧ In (remove_message 0 (codes_of "boot")) (stdout (log r.2)).
Proof. split; [reflexivity|]. vm_compute. tauto. Qed.


(** ** Further properties *)

(** *** Programs that leave the input alone *)

Section Steady.

Context {A B : Type} (ok : event → bool).

Lemma steady_ret (a : A) : steady ok (mret a : prog A).
Proof. intros s. exists []. by rewrite logged_nil. Qed.

Lemma steady_crash (f : fault) : steady ok (crash f : prog A).
Proof. intros s. exists []. by rewrite logged_nil. Qed.

Lemma steady_checked (f : fault) (o : option A) : steady ok (checked f o).
Proof. destruct o; [apply steady_ret | apply steady_crash]. Qed.

Lemma steady_bind (m : prog A) (k : A → prog B) :
  steady ok m → (∀ a, steady ok (k a)) → steady ok (m ≫= k).
Proof.
  intros Hm Hk s. destruct (Hm s) as (es & Hes & Hok).
  unfold mbind, prog_bind. destruct (m s) as [[a| |] s']; simpl in Hes; subst s'.
  - destruct (Hk a (logged s es)) as (es' & Hes' & Hok').
    exists (es ++ es'). rewrite Hes', logged_logged. split; [done|].
    rewrite forallb_app. by rewrite Hok, Hok'.
  - by exists es.
  - by exists es.
Qed.

End Steady.

Lemma steady_emit (ok : event → bool) (e : event) :
  ok e = true → steady ok (emit e).
Proof. intros He s. exists [e]. split; [done|]. simpl. by rewrite He. Qed.

Lemma steady_printf (ok : event → bool) (fmt : string) (args : list parg) :
  (∀ t, ok (Stdout t) = true) → steady ok (printf fmt args).
Proof.
  intros Hok. unfold printf.
  apply steady_bind; [apply steady_checked|].
  intros t. by apply steady_emit.
Qed.

Lemma steady_mono {A} (ok ok' : event → bool) (m : prog A) :
  (∀ e, ok e = true → ok' e = true) → steady ok m → steady ok' m.
Proof.
  intros Himp Hm s. destruct (Hm s) as (es & Hes & Hok).
  exists es. split; [done|].
  rewrite forallb_forall in Hok |- *. auto.
Qed.

Lemma forallb_count (ok f : event → bool) (es : list event) :
  (∀ e, ok e = true → f e = false) →
  forallb ok es = true → count f es = 0%nat.
Proof.
  intros Hf. unfold count. induction es as [|e es IH]; simpl; [done|].
  intros [He Hes]%andb_prop. rewrite (Hf e He). auto.
Qed.

(** *** [cgetc] *)

Lemma cgetc_loop_skips (pre : list (Z * Z)) (input : list (Z * Z)) :
  Forall (λ x, ¬ decisive x) pre →
  cgetc_loop (pre ++ input) = cgetc_loop input.
Proof.
  induction 1 as [|[r ch] pre Hx _ IH]; simpl; [done|].
  unfold decisive in Hx. simpl in Hx.
  destruct (Z.ltb_spec r 0); [lia|].
  destruct (Z.eqb_spec r 1); [lia|]. done.
Qed.

(** X1: [cgetc] ignores every read that neither fails nor delivers a byte
    and returns at the first read that does: the negative result of a
    failed read, or the byte of a read of one byte; the reads after it
    stay pending. *)
Theorem cgetc_returns_the_first_delivery
        (pre rest : list (Z * Z)) (x : Z * Z) :
  Forall (λ y, ¬ decisive y) pre → decisive x →
  cgetc_loop (pre ++ x :: rest) = Some (delivered x, rest).
Proof.
  intros Hpre Hx. rewrite cgetc_loop_skips by done.
  destruct x as [r ch]. unfold decisive, delivered in *. simpl in *.
  destruct (Z.ltb_spec r 0); [done|].
  destruct (Z.eqb_spec r 1); [done|lia].
Qed.

Lemma cgetc_returns_the_first_delivery_witness :
  Forall (λ y, ¬ decisive y) [(0, 0); (0, 7)] ∧ decisive (1, 266)
  ∧ cgetc_loop ([(0, 0); (0, 7)] ++ (1, 266) :: [(1, 10)])
    = Some (delivered (1, 266), [(1, 10)]).
Proof.
  assert (Forall (λ y, ¬ decisive y) [(0, 0); (0, 7)]) as Hpre
    by (repeat constructor; unfold decisive; simpl; lia).
  assert (decisive (1, 266)) as Hx by (by right).
  split; [exact Hpre|]. split; [exact Hx|].
  apply (cgetc_returns_the_first_delivery [(0, 0); (0, 7)] [(1, 10)] (1, 266)
           Hpre Hx).
Defined.

(** X2: what [cgetc] returns is either negative (the result of a failed
    read) or a byte value, from 0 to 255; it has consumed at least one
    read, and exactly the reads up to the one that decided. *)
Theorem cgetc_returns_an_error_or_a_byte
        (input rest : list (Z * Z)) (c : Z) :
  cgetc_loop input = Some (c, rest) →
  (c < 0 ∨ 0 ≤ c < 256)
  ∧ ∃ pre x, input = pre ++ x :: rest
             ∧ Forall (λ y, ¬ decisive y) pre
             ∧ decisive x ∧ c = delivered x.
Proof.
  revert c rest. induction input as [|[r ch] input IH]; intros c rest; [done|].
  simpl. destruct (Z.ltb_spec r 0) as [Hr|Hr].
  - intros [= <- <-]. split; [by left|].
    exists [], (r, ch). unfold decisive, delivered. simpl.
    rewrite (proj2 (Z.ltb_lt r 0)) by done. repeat split; auto.
  - destruct (Z.eqb_spec r 1) as [->|Hr1].
    + intros [= <- <-]. split; [right; apply Z.mod_pos_bound; lia|].
      exists [], (1, ch). unfold decisive, delivered. simpl. repeat split; auto.
    + intros Hrec. destruct (IH c rest Hrec) as (Hc & pre & x & -> & Hpre & Hx & ->).
      split; [done|]. exists ((r, ch) :: pre), x. repeat split; auto.
      constructor; [|done]. unfold decisive. simpl. lia.
Qed.

Lemma cgetc_returns_an_error_or_a_byte_witness :
  cgetc_loop [(0, 0); (1, 266); (1, 10)] = Some (10, [(1, 10)])
  ∧ (10 < 0 ∨ 0 ≤ 10 < 256)
  ∧ ∃ pre x, [(0, 0); (1, 266); (1, 10)] = pre ++ x :: [(1, 10)]
             ∧ Forall (λ y, ¬ decisive y) pre
             ∧ decisive x ∧ 10 = delivered x.
Proof.
  split; [reflexivity|].
  apply (cgetc_returns_an_error_or_a_byte [(0, 0); (1, 266); (1, 10)]
           [(1, 10)] 10).
  reflexivity.
Defined.

Lemma cgetc_loop_None (input : list (Z * Z)) :
  cgetc_loop input = None ↔ Forall (λ y, ¬ decisive y) input.
Proof.
  split.
  - induction input as [|[r ch] input IH]; simpl; [constructor|].
    destruct (Z.ltb_spec r 0); [done|].
    destruct (Z.eqb_spec r 1); [done|].
    intros H'. constructor; [|by apply IH].
    unfold decisive. simpl. lia.
  - intros Hall. rewrite <- (app_nil_r input).
    by rewrite cgetc_loop_skips.
Qed.

(** X3: when no pending read fails or delivers a byte, add and remove
    never get past the confirmation: the run stays blocked in [cgetc],
    having written the prompt and nothing else. *)
Theorem without_a_key_add_and_remove_block
        (P : platform) (dev name : string) (offset blocks n : Z) (s : sys) :
  Forall (λ y, ¬ decisive y) (stdin s) →
  add_partition P dev offset blocks name s
  = (Blocked, {| stdin := []; log := log s ++ [Stdout (prompt dev)] |})
  ∧ remove_partition P dev n s
    = (Blocked, {| stdin := []; log := log s ++ [Stdout (prompt dev)] |}).
Proof.
  intros Hkeys%cgetc_loop_None. split.
  - unfold add_partition. erewrite bind_blocked; [done|by apply init_blocked].
  - unfold remove_partition. erewrite bind_blocked; [done|by apply init_blocked].
Qed.

Lemma without_a_key_add_and_remove_block_witness :
  let P := machine 128 512 (table_of true [Some 1%positive]) 0 0 0 in
  let dev := "/dev/class/block/000"%string in
  let s := start [(0, 0); (0, 0)] in
  Forall (λ y, ¬ decisive y) (stdin s)
  ∧ add_partition P dev 34 2048 "boot" s
    = (Blocked, {| stdin := []; log := log s ++ [Stdout (prompt dev)] |})
  ∧ remove_partition P dev 0 s
    = (Blocked, {| stdin := []; log := log s ++ [Stdout (prompt dev)] |}).
Proof.
  intros P dev s.
  assert (Forall (λ y, ¬ decisive y) (stdin s)) as Hkeys
    by (repeat constructor; unfold decisive; simpl; lia).
  split; [exact Hkeys|].
  apply (without_a_key_add_and_remove_block P dev "boot" 34 2048 0 s Hkeys).
Defined.

(** *** [init] *)

Section Init.

Context (P : platform).

Lemma confirmation_run (dev : string) (warn : bool) (s : sys) :
  confirmed warn s →
  (if warn then
     printf "Using %s... <enter> to continue, any other key to cancel\n"
            [ArgStr (literal dev)];;
     c ← cgetc; mret (bool_decide (c = 10))
   else mret true) s
  = (Return true, after_confirmation dev warn s).
Proof.
  intros Hgo. unfold after_confirmation. destruct warn.
  - destruct Hgo as [rest Hkey].
    erewrite bind_run; [|apply prompt_run].
    erewrite bind_run; [|by apply cgetc_run]. simpl. by rewrite Hkey.
  - reflexivity.
Qed.

(** X4: when [open] fails, [init] reports it and returns no table: after
    the confirmation it has called [open], printed "error opening <dev>"
    and nothing else; no query is made and nothing is closed. *)
Theorem init_reports_an_open_failure (dev : string) (warn : bool) (s : sys) :
  confirmed warn s → sys_open P dev < 0 →
  init P dev warn s
  = (Return None,
     logged (after_confirmation dev warn s) [Open dev; Stdout (open_error dev)]).
Proof.
  intros Hgo Hfd. unfold init.
  erewrite bind_run; [|by apply confirmation_run]. cbn [negb].
  unfold open. erewrite bind_run; [|erewrite bind_run; [|apply emit_run]; reflexivity].
  rewrite (proj2 (Z.ltb_lt _ 0)) by done.
  erewrite bind_run; cycle 1.
  { apply printf_run. cbn -[literal cstring]. rewrite cstring_chars. reflexivity. }
  rewrite logged_logged. reflexivity.
Qed.

(** X5: when the device opens and then the block-size query, the size
    query or the codec's initialisation fails, [init] returns no table and
    its last act is to close the descriptor it opened, which it closes
    once; it syncs nothing. *)
Theorem init_closes_the_device_on_failure (dev : string) (warn : bool) (s : sys) :
  confirmed warn s → 0 ≤ sys_open P dev →
  fails_after_open P (sys_open P dev) →
  ∃ es, init P dev warn s
        = (Return None,
           logged (after_confirmation dev warn s)
                  (Open dev :: es ++ [Close (sys_open P dev)]))
        ∧ count is_close es = 0%nat
        ∧ count is_sync es = 0%nat.
Proof.
  intros Hgo Hfd Hfail. unfold init.
  erewrite bind_run; [|by apply confirmation_run]. cbn [negb].
  unfold open. erewrite bind_run; [|erewrite bind_run; [|apply emit_run]; reflexivity].
  rewrite (proj2 (Z.ltb_ge _ 0)) by done.
  erewrite bind_run; [|apply emit_run].
  unfold fails_after_open in Hfail.
  destruct (get_blocksize P (sys_open P dev)) as [rc bs]. simpl in Hfail.
  destruct (Z.ltb_spec rc 0) as [Hrc|Hrc].
  { eexists [_; _].
    erewrite bind_run; [|by apply printf_run].
    unfold close. erewrite bind_run; [|apply emit_run].
    rewrite !logged_logged. split; [reflexivity|]. split; reflexivity. }
  erewrite bind_run; [|apply emit_run].
  destruct (get_size P (sys_open P dev)) as [rc' size]. simpl in Hfail.
  destruct (Z.ltb_spec rc' 0) as [Hrc'|Hrc'].
  { eexists [_; _; _].
    erewrite bind_run; [|by apply printf_run].
    unfold close. erewrite bind_run; [|apply emit_run].
    rewrite !logged_logged. split; [reflexivity|]. split; reflexivity. }
  destruct Hfail as [?|[[_ ?]|(_ & _ & Hbs & Hinit)]]; [lia|lia|].
  rewrite (proj2 (Z.eqb_neq bs 0)) by done.
  erewrite bind_run; [|reflexivity].
  erewrite bind_run; [|by apply printf_run].
  erewrite bind_run; [|apply emit_run].
  destruct (gpt_device_init P _ _ _) as [rc3 gpt]. simpl in Hinit.
  rewrite (proj2 (Z.ltb_lt rc3 0)) by done.
  eexists [_; _; _; _; _].
  erewrite bind_run; [|by apply printf_run].
  unfold close. erewrite bind_run; [|apply emit_run].
  rewrite !logged_logged. split; [reflexivity|]. split; reflexivity.
Qed.

(** X6: when the device opens, both queries succeed with a non-zero block
    size and the codec accepts the device, [init] returns the codec's table
    with the descriptor, which it leaves open; it has queried the block
    size, then the size, printed the geometry, and given the codec the
    block size and the number of blocks, the size in bytes divided by the
    block size (rounded down). *)
Theorem init_hands_the_geometry_to_the_codec
      (dev : string) (warn : bool) (s : sys)
      (rc rc' rc3 blocksize size : Z) (gpt : table) :
  confirmed warn s → 0 ≤ sys_open P dev →
  get_blocksize P (sys_open P dev) = (rc, blocksize) → 0 ≤ rc →
  get_size P (sys_open P dev) = (rc', size) → 0 ≤ rc' →
  blocksize ≠ 0 →
  gpt_device_init P (sys_open P dev) blocksize (size / blocksize)
  = (rc3, Some gpt) → 0 ≤ rc3 →
  init P dev warn s
  = (Return (Some (gpt, sys_open P dev)),
     logged (after_confirmation dev warn s)
       [Open dev;
        Ioctl (sys_open P dev) BLOCK_OP_GET_BLOCKSIZE;
        Ioctl (sys_open P dev) BLOCK_OP_GET_SIZE;
        Stdout (geometry_line blocksize (size / blocksize));
        GptDeviceInit (sys_open P dev) blocksize (size / blocksize)]).
Proof.
  intros Hgo Hfd Hbs Hrc Hsz Hrc' Hnz Hinit Hrc3. unfold init.
  erewrite bind_run; [|by apply confirmation_run]. cbn [negb].
  unfold open. erewrite bind_run; [|erewrite bind_run; [|apply emit_run]; reflexivity].
  rewrite (proj2 (Z.ltb_ge _ 0)) by done.
  erewrite bind_run; [|apply emit_run]. rewrite Hbs.
  rewrite (proj2 (Z.ltb_ge rc 0)) by done.
  erewrite bind_run; [|apply emit_run]. rewrite Hsz.
  rewrite (proj2 (Z.ltb_ge rc' 0)) by done.
  rewrite (proj2 (Z.eqb_neq blocksize 0)) by done.
  erewrite bind_run; [|reflexivity].
  erewrite bind_run; cycle 1.
  { apply printf_run. cbn -[fmt_llu]. reflexivity. }
  erewrite bind_run; [|apply emit_run]. rewrite Hinit.
  rewrite (proj2 (Z.ltb_ge rc3 0)) by done.
  rewrite !logged_logged. reflexivity.
Qed.

End Init.

Lemma init_reports_an_open_failure_witness :
  let P := faulty (-1) 0 0 0 in
  let dev := "/dev/nowhere"%string in
  confirmed true (start enter) ∧ sys_open P dev < 0
  ∧ init P dev true (start enter)
    = (Return None,
       logged (after_confirmation dev true (start enter))
              [Open dev; Stdout (open_error dev)]).
Proof.
  intros P dev.
  assert (confirmed true (start enter)) as Hgo by (by exists []).
  split; [exact Hgo|]. split; [simpl; lia|].
  apply (init_reports_an_open_failure P dev true (start enter) Hgo).
  simpl. lia.
Defined.

Lemma init_closes_the_device_on_failure_witness :
  let P := faulty 3 0 (-1) 0 in
  let dev := "/dev/class/block/000"%string in
  confirmed false (start []) ∧ 0 ≤ sys_open P dev
  ∧ fails_after_open P (sys_open P dev)
  ∧ ∃ es, init P dev false (start [])
          = (Return None,
             logged (after_confirmation dev false (start []))
                    (Open dev :: es ++ [Close (sys_open P dev)]))
          ∧ count is_close es = 0%nat
          ∧ count is_sync es = 0%nat.
Proof.
  intros P dev.
  assert (fails_after_open P (sys_open P dev)) as Hfail
    by (right; left; simpl; lia).
  split; [exact I|]. split; [simpl; lia|]. split; [exact Hfail|].
  apply (init_closes_the_device_on_failure P dev false (start []) I);
    [simpl; lia | exact Hfail].
Defined.

Lemma init_hands_the_geometry_to_the_codec_witness :
  let gpt := table_of true [Some 1%positive] in
  let P := machine 128 512 gpt 0 0 0 in
  let dev := "/dev/class/block/000"%string in
  confirmed false (start []) ∧ 0 ≤ sys_open P dev
  ∧ get_blocksize P (sys_open P dev) = (0, 512)
  ∧ get_size P (sys_open P dev) = (0, 8192 * 512)
  ∧ 512 ≠ 0
  ∧ gpt_device_init P (sys_open P dev) 512 (8192 * 512 / 512) = (0, Some gpt)
  ∧ init P dev false (start [])
    = (Return (Some (gpt, sys_open P dev)),
       logged (after_confirmation dev false (start []))
         [Open dev;
          Ioctl (sys_open P dev) BLOCK_OP_GET_BLOCKSIZE;
          Ioctl (sys_open P dev) BLOCK_OP_GET_SIZE;
          Stdout (geometry_line 512 (8192 * 512 / 512));
          GptDeviceInit (sys_open P dev) 512 (8192 * 512 / 512)]).
Proof.
  intros gpt P dev.
  split; [exact I|]. split; [simpl; lia|]. split; [reflexivity|].
  split; [reflexivity|]. split; [lia|]. split; [reflexivity|].
  apply (init_hands_the_geometry_to_the_codec P dev false (start [])
           0 0 0 512 (8192 * 512) gpt I);
    [simpl; lia | reflexivity | lia | reflexivity | lia | lia | reflexivity | lia].
Defined.

(** X7: whatever the platform answers and however it ends, [init] leaves
    the table alone: it makes no sync, no insertion, no removal and no
    release. *)
Theorem init_leaves_the_table_alone
        (P : platform) (dev : string) (warn : bool) (s : sys) :
  ∃ es, log (init P dev warn s).2 = log s ++ es
        ∧ count is_sync es = 0%nat ∧ count is_insertion es = 0%nat
        ∧ count is_removal es = 0%nat ∧ count is_release es = 0%nat.
Proof.
  destruct (init_log P dev warn s) as (es & Hes & Hq).
  exists es. split; [done|].
  repeat split; apply (count_quiet _ es); try done; by intros [] ?.
Qed.

(** *** [dump_partitions] *)

Lemma init_without_warning_steady (P : platform) (dev : string) :
  steady quiet (init P dev false).
Proof.
  intros s.
  unfold init, open, close, printf, emit, checked, crash,
    mbind, mret, prog_bind, prog_ret, logged.
  cbn -[fmt_llu literal cstring].
  rewrite !cstring_chars. cbn -[fmt_llu literal cstring].
  repeat case_match; simplify_eq/=;
    rewrite <- ?app_assoc; eexists; (split; [reflexivity|reflexivity]).
Qed.

Lemma dump_loop_steady (P : platform) (gpt : table) (count : nat) :
  ∀ (i : Z) (guid_buf : list Z), steady is_output (dump_loop P gpt count i guid_buf).
Proof.
  induction count as [|count IH]; intros i guid_buf; cbn [dump_loop].
  - apply steady_ret.
  - apply steady_bind.
    { unfold slot. case_match; [apply steady_ret | apply steady_crash]. }
    intros [p|]; [|apply steady_ret].
    apply steady_bind; [apply steady_checked|]. intros e.
    apply steady_bind; [apply steady_checked|]. intros name_buf.
    apply steady_bind; [apply steady_checked|]. intros guid_buf'.
    apply steady_bind; [by apply steady_printf|]. intros _. apply IH.
Qed.

(** X8: a dump is read-only on every device, in every state and however it
    ends: it reads no key, and it makes no sync, no insertion and no
    removal. *)
Theorem dump_is_read_only (P : platform) (dev : string) (s : sys) :
  ∃ es, (dump_partitions P dev s).2 = logged s es
        ∧ count is_sync es = 0%nat ∧ count is_insertion es = 0%nat
        ∧ count is_removal es = 0%nat.
Proof.
  assert (steady read_only (dump_partitions P dev)) as Hdump.
  { unfold dump_partitions. apply steady_bind.
    { eapply steady_mono; [|apply init_without_warning_steady]. by intros []. }
    intros [[gpt fd]|]; [|apply steady_ret].
    destruct (valid (device gpt)); cbn [negb]; [|by apply steady_printf].
    apply steady_bind; [by apply steady_printf|]. intros _.
    apply steady_bind.
    { eapply steady_mono; [|apply dump_loop_steady]. by intros []. }
    intros i. apply steady_bind; [by apply steady_printf|]. intros _.
    apply steady_bind; [by apply steady_emit|]. intros _.
    by apply steady_emit. }
  destruct (Hdump s) as (es & Hes & Hok).
  exists es. split; [done|].
  repeat split; apply (forallb_count read_only _ es); try done; by intros [] ?.
Qed.

Lemma stdout_app (es es' : list event) :
  stdout (es ++ es') = stdout es ++ stdout es'.
Proof. unfold stdout. apply bind_app. Qed.

Lemma stdout_cons (e : event) (es : list event) :
  stdout (e :: es) = stdout [e] ++ stdout es.
Proof. apply (stdout_app [e] es). Qed.

Lemma stdout_In (t : string) (es : list event) :
  In (Stdout t) es → In t (stdout es).
Proof.
  induction es as [|e es IH]; [done|].
  rewrite stdout_cons.
  intros [->|Hin]; apply in_or_app; [left; by left | right; auto].
Qed.






Lemma packed_leading_run (slots : list (option positive)) :
  packed slots →
  ∀ (k : nat) (p : positive),
    slots !! k = Some (Some p) → in_leading_run slots k p.
Proof.
  intros Hpacked k p Hk. split; [done|].
  assert (∀ d j, (j + d = k)%nat → ∃ q, slots !! j = Some (Some q)) as Hdown.
  { induction d as [|d IH]; intros j Hj.
    - replace j with k by lia. by exists p.
    - destruct (IH (S j) ltac:(lia)) as [q Hq]. by apply (Hpacked j q). }
  intros j Hj. apply (Hdown (k - j)%nat). lia.
Qed.

(** X10: when the slot array is packed (no occupied slot follows an empty
    one), a dump of a valid table prints the line of every occupied slot
    within the capacity. *)
Theorem dump_of_a_packed_table_is_complete
        (P : platform) (dev : string) (s s1 : sys) (gpt : table) (fd : Z) :
  init P dev false s = (Return (Some (gpt, fd)), s1) →
  valid (device gpt) = true →
  live gpt (rendered_slots P gpt) →
  packed (partitions (device gpt)) →
  ∀ (k : nat) (p : positive) (e : gpt_partition_t),
    Z.of_nat k < PARTITIONS_COUNT P →
    partitions (device gpt) !! k = Some (Some p) →
    entries gpt !! p = Some e →
    In (dump_line (Z.of_nat k) e) (stdout (log (dump_partitions P dev s).2)).
Proof.
  intros Hinit Hvalid Hlive Hpacked k p e Hcap Hk He.
  rewrite (dump_partitions_run P dev s s1 gpt fd Hinit Hvalid Hlive).
  assert (rendered_slots P gpt !! k = Some p) as Hr.
  { unfold rendered_slots. apply leading_lookup.
    destruct (packed_leading_run _ Hpacked k p Hk) as [_ Hbefore].
    split.
    - apply lookup_take_Some. split; [done|lia].
    - intros j Hj. destruct (Hbefore j Hj) as [q Hq]. exists q.
      apply lookup_take_Some. split; [done|lia]. }
  pose proof (dump_lines_lookup gpt _ 0 k p e Hlive Hr He) as Hline.
  apply stdout_In. cbn [snd logged log].
  apply in_or_app. right. right. apply in_or_app. left.
  apply list_elem_of_In, list_elem_of_lookup. by exists k.
Qed.

Lemma dump_of_a_packed_table_is_complete_witness :
  let gpt := table_of true [Some 1; Some 2; None; None]%positive in
  let P := machine 4 512 gpt 0 0 0 in
  let dev := "/dev/class/block/000"%string in
  let s := start [] in
  let s1 := (init P dev false s).2 in
  init P dev false s = (Return (Some (gpt, 3)), s1)
  ∧ valid (device gpt) = true
  ∧ live gpt (rendered_slots P gpt)
  ∧ packed (partitions (device gpt))
  ∧ Z.of_nat 1 < PARTITIONS_COUNT P
  ∧ partitions (device gpt) !! 1%nat = Some (Some 2%positive)
  ∧ entries gpt !! 2%positive = Some entry_b
  ∧ In (dump_line (Z.of_nat 1) entry_b)
       (stdout (log (dump_partitions P dev s).2)).
Proof.
  intros gpt P dev s s1.
  assert (live gpt (rendered_slots P gpt)) as Hlive.
  { apply Forall_cons_2;
      [exists entry_a; split; [reflexivity|];
       split; [reflexivity|]; split; [reflexivity|];
       vm_compute; repeat constructor; discriminate|].
    apply Forall_cons_2;
      [exists entry_b; split; [reflexivity|];
       split; [reflexivity|]; split; [reflexivity|];
       vm_compute; repeat constructor; discriminate|].
    apply Forall_nil_2. }
  assert (packed (partitions (device gpt))) as Hpacked.
  { intros [|[|[|[|i]]]] p Hp; simpl in Hp; try discriminate Hp.
    by exists 1%positive. }
  split; [reflexivity|]. split; [reflexivity|]. split; [exact Hlive|].
  split; [exact Hpacked|]. split; [simpl; lia|]. split; [reflexivity|].
  split; [reflexivity|].
  apply (dump_of_a_packed_table_is_complete P dev s s1 gpt 3
           eq_refl eq_refl Hlive Hpacked 1%nat 2%positive entry_b);
    [simpl; lia | reflexivity | reflexivity].
Defined.

(** *** [add_partition] *)

(** X11: whatever the codec answers to the insertion, an add that [init]
    lets through returns, and its last two acts are to release the table
    and to close the descriptor [init] opened; it releases and closes
    nothing before. *)
Theorem add_ends_with_release_and_close
        (P : platform) (dev name : string) (offset blocks : Z)
        (s s1 : sys) (gpt : table) (fd : Z) :
  init P dev true s = (Return (Some (gpt, fd)), s1) →
  ∃ (es : list event) (g : table),
    add_partition P dev offset blocks name s
    = (Return (), logged s1 (es ++ [GptDeviceRelease g; Close fd]))
    ∧ count is_release es = 0%nat ∧ count is_close es = 0%nat.
Proof.
  intros Hinit.
  rewrite (add_partition_run P dev name offset blocks s s1 gpt fd Hinit).
  destruct (insertion P gpt name offset blocks) as [rc gpt'].
  destruct (rc =? 0).
  - exists ((if valid (device gpt) then [] else commit_events gpt fd)
            ++ [CprngDraw 16; insertion_event P gpt name offset blocks;
                Stdout (add_message name offset blocks)]
            ++ commit_events gpt' fd), (gpt_device_sync P gpt').
    split; [by rewrite <- !app_assoc|].
    rewrite !count_app. by destruct (valid (device gpt)).
  - exists ((if valid (device gpt) then [] else commit_events gpt fd)
            ++ [CprngDraw 16; insertion_event P gpt name offset blocks]), gpt'.
    split; [by rewrite <- !app_assoc|].
    rewrite !count_app. by destruct (valid (device gpt)).
Qed.

Lemma add_ends_with_release_and_close_witness :
  let gpt := table_of true [Some 1%positive] in
  let P := machine 128 512 gpt (-1) 0 0 in
  let dev := "/dev/class/block/000"%string in
  let s := start enter in
  let s1 := (init P dev true s).2 in
  init P dev true s = (Return (Some (gpt, 3)), s1)
  ∧ ∃ (es : list event) (g : table),
      add_partition P dev 34 2048 "boot" s
      = (Return (), logged s1 (es ++ [GptDeviceRelease g; Close 3]))
      ∧ count is_release es = 0%nat ∧ count is_close es = 0%nat.
Proof.
  intros gpt P dev s s1. split; [reflexivity|].
  apply (add_ends_with_release_and_close P dev "boot" 34 2048 s s1 gpt 3).
  reflexivity.
Defined.

(** X12: an add that [init] lets through syncs the table once to bootstrap
    an invalid table and once more when the codec accepts the insertion,
    so at most twice; and it notifies the platform to read the table again
    as many times as it syncs. *)
Theorem add_notifies_once_per_sync
        (P : platform) (dev name : string) (offset blocks : Z)
        (s s1 : sys) (gpt : table) (fd : Z) :
  init P dev true s = (Return (Some (gpt, fd)), s1) →
  ∃ es : list event,
    (add_partition P dev offset blocks name s).2 = logged s1 es
    ∧ count is_sync es
      = ((if valid (device gpt) then 0 else 1)
         + (if ((insertion P gpt name offset blocks).1 =? 0)%Z then 1 else 0))%nat
    ∧ count is_reread es = count is_sync es
    ∧ (count is_sync es ≤ 2)%nat.
Proof.
  intros Hinit.
  rewrite (add_partition_run P dev name offset blocks s s1 gpt fd Hinit).
  eexists. split; [reflexivity|].
  destruct (insertion P gpt name offset blocks) as [rc gpt']. cbn [fst].
  rewrite !count_app.
  destruct (valid (device gpt)), (rc =? 0); cbn; repeat split; lia.
Qed.

Lemma add_notifies_once_per_sync_witness :
  let gpt := table_of false [] in
  let P := machine 128 512 gpt (-1) 0 0 in
  let dev := "/dev/class/block/000"%string in
  let s := start enter in
  let s1 := (init P dev true s).2 in
  init P dev true s = (Return (Some (gpt, 3)), s1)
  ∧ ∃ es : list event,
      (add_partition P dev 34 2048 "boot" s).2 = logged s1 es
      ∧ count is_sync es
        = ((if valid (device gpt) then 0 else 1)
           + (if ((insertion P gpt "boot" 34 2048).1 =? 0)%Z then 1 else 0))%nat
      ∧ count is_reread es = count is_sync es
      ∧ (count is_sync es ≤ 2)%nat.
Proof.
  intros gpt P dev s s1. split; [reflexivity|].
  apply (add_notifies_once_per_sync P dev "boot" 34 2048 s s1 gpt 3).
  reflexivity.
Defined.

(** *** [remove_partition] *)

(** X13: a confirmed remove whose index is at or above the capacity, or
    within the array at a slot that holds no entry, does nothing after
    [init]: it prints nothing, calls the codec for nothing, commits
    nothing. *)
Theorem remove_without_an_entry_does_nothing
        (P : platform) (dev : string) (n : Z) (s s1 : sys)
        (gpt : table) (fd : Z) :
  init P dev true s = (Return (Some (gpt, fd)), s1) →
  PARTITIONS_COUNT P ≤ n
  ∨ (0 ≤ n < PARTITIONS_COUNT P
     ∧ default None (partitions (device gpt) !! Z.to_nat n) = None) →
  remove_partition P dev n s = (Return (), s1).
Proof.
  intros Hinit [Hn|[Hn Hslot]].
  - by eapply remove_out_of_range.
  - by eapply remove_empty_slot.
Qed.

Lemma remove_without_an_entry_does_nothing_witness :
  let gpt := table_of true [Some 1; None]%positive in
  let P := machine 128 512 gpt 0 0 0 in
  let dev := "/dev/class/block/000"%string in
  let s := start enter in
  let s1 := (init P dev true s).2 in
  init P dev true s = (Return (Some (gpt, 3)), s1)
  ∧ (PARTITIONS_COUNT P ≤ 100
     ∨ (0 ≤ 100 < PARTITIONS_COUNT P
        ∧ default None (partitions (device gpt) !! Z.to_nat 100) = None))
  ∧ remove_partition P dev 100 s = (Return (), s1).
Proof.
  intros gpt P dev s s1.
  assert (PARTITIONS_COUNT P ≤ 100
          ∨ (0 ≤ 100 < PARTITIONS_COUNT P
             ∧ default None (partitions (device gpt) !! Z.to_nat 100) = None))
    as Hn by (right; split; [simpl; lia | reflexivity]).
  split; [reflexivity|]. split; [exact Hn|].
  apply (remove_without_an_entry_does_nothing P dev 100 s s1 gpt 3 eq_refl Hn).
Defined.

Section Remove.

Context (P : platform).

(** [remove_partition] up to the codec's answer. *)
Lemma remove_partition_call (dev : string) (n : Z) (s s1 : sys)
      (gpt : table) (fd : Z) (p : positive) (e : gpt_partition_t) :
  init P dev true s = (Return (Some (gpt, fd)), s1) →
  0 ≤ n < PARTITIONS_COUNT P →
  partitions (device gpt) !! Z.to_nat n = Some (Some p) →
  entries gpt !! p = Some e →
  remove_partition P dev n s
  = (let '(rc, gpt') := gpt_partition_remove P gpt (guid e) in
     gpt'' ← (if rc =? 0 then
                let name_buf := auto_array P "name" 37 in
                e' ← entry gpt' p;
                name_buf ← checked BadBuffer
                             (utf16_to_cstring name_buf (name e') 36);
                printf "remove partition: n=%d name=%s\n"
                       [ArgInt n; ArgStr name_buf];;
                commit P gpt' fd
              else mret gpt');
     emit (GptDeviceRelease gpt'');;
     close fd) (logged s1 [GptPartitionRemove gpt (guid e)]).
Proof.
  intros Hinit Hn Hslot He. unfold remove_partition.
  erewrite bind_run; [|exact Hinit]. cbn beta iota.
  rewrite (proj2 (Z.leb_gt _ _)) by lia. unfold slot.
  rewrite (proj2 (Z.leb_le 0 n)), (proj2 (Z.ltb_lt n _)) by lia.
  cbn [andb]. erewrite bind_run; [|reflexivity].
  rewrite Hslot. cbn [from_option id].
  erewrite bind_run; [|unfold entry; rewrite He; reflexivity].
  erewrite bind_run; [|apply emit_run]. reflexivity.
Qed.

End Remove.

(** X14: when the codec refuses the removal (any non-zero answer), a remove
    prints nothing and commits nothing: after the one call to the codec it
    releases the table as the codec left it and closes the device. *)
Theorem refused_removal_is_not_committed
        (P : platform) (dev : string) (n : Z) (s s1 : sys)
        (gpt gpt' : table) (fd rc : Z) (p : positive) (e : gpt_partition_t) :
  init P dev true s = (Return (Some (gpt, fd)), s1) →
  0 ≤ n < PARTITIONS_COUNT P →
  partitions (device gpt) !! Z.to_nat n = Some (Some p) →
  entries gpt !! p = Some e →
  gpt_partition_remove P gpt (guid e) = (rc, gpt') →
  rc ≠ 0 →
  remove_partition P dev n s
  = (Return (),
     logged s1 [GptPartitionRemove gpt (guid e); GptDeviceRelease gpt'; Close fd]).
Proof.
  intros Hinit Hn Hslot He Hrm Hrc.
  rewrite (remove_partition_call P dev n s s1 gpt fd p e) by done.
  rewrite Hrm. rewrite (proj2 (Z.eqb_neq rc 0)) by done.
  erewrite bind_run; [|reflexivity].
  erewrite bind_run; [|apply emit_run].
  unfold close. rewrite emit_run, !logged_logged. reflexivity.
Qed.

Lemma refused_removal_is_not_committed_witness :
  let gpt := table_of true [Some 1%positive] in
  let P := machine 128 512 gpt 0 (-1) 120 in
  let dev := "/dev/class/block/000"%string in
  let s := start enter in
  let s1 := (init P dev true s).2 in
  init P dev true s = (Return (Some (gpt, 3)), s1)
  ∧ 0 ≤ 0 < PARTITIONS_COUNT P
  ∧ partitions (device gpt) !! Z.to_nat 0 = Some (Some 1%positive)
  ∧ entries gpt !! 1%positive = Some entry_a
  ∧ gpt_partition_remove P gpt (guid entry_a) = (-1, gpt)
  ∧ -1 ≠ 0
  ∧ remove_partition P dev 0 s
    = (Return (),
       logged s1 [GptPartitionRemove gpt (guid entry_a);
                  GptDeviceRelease gpt; Close 3]).
Proof.
  intros gpt P dev s s1.
  split; [reflexivity|]. split; [simpl; lia|]. split; [reflexivity|].
  split; [reflexivity|]. split; [reflexivity|]. split; [lia|].
  apply (refused_removal_is_not_committed P dev 0 s s1 gpt gpt 3 (-1)
           1%positive entry_a);
    [reflexivity | simpl; lia | reflexivity | reflexivity | reflexivity | lia].
Defined.

(** X15: a remove that finds an entry in the slot calls the codec's removal
    once, with the unique identifier of that entry and not with the index;
    however the run ends, it makes no other removal and no insertion, it
    syncs at most once, and it syncs only if the codec answered 0. *)
Theorem removal_is_keyed_by_the_identifier
        (P : platform) (dev : string) (n : Z) (s s1 : sys)
        (gpt : table) (fd : Z) (p : positive) (e : gpt_partition_t) :
  init P dev true s = (Return (Some (gpt, fd)), s1) →
  0 ≤ n < PARTITIONS_COUNT P →
  partitions (device gpt) !! Z.to_nat n = Some (Some p) →
  entries gpt !! p = Some e →
  ∃ es : list event,
    (remove_partition P dev n s).2
    = logged s1 (GptPartitionRemove gpt (guid e) :: es)
    ∧ count is_removal es = 0%nat ∧ count is_insertion es = 0%nat
    ∧ (count is_sync es ≤ 1)%nat
    ∧ ((gpt_partition_remove P gpt (guid e)).1 ≠ 0 → count is_sync es = 0%nat).
Proof.
  intros Hinit Hn Hslot He.
  rewrite (remove_partition_call P dev n s s1 gpt fd p e) by done.
  destruct (gpt_partition_remove P gpt (guid e)) as [rc gpt']. cbn [fst].
  destruct (Z.eqb_spec rc 0) as [->|Hrc].
  - unfold entry. destruct (entries gpt' !! p) as [e'|]; cbn [checked].
    2:{ exists []. erewrite bind_crash; [|erewrite bind_crash; reflexivity].
        split; [reflexivity|]. repeat split; (done || cbn; lia). }
    destruct (utf16_to_cstring (auto_array P "name" 37) (name e') 36)
      as [name_buf|] eqn:Hbuf.
    2:{ exists []. erewrite bind_crash; cycle 1.
        { erewrite bind_run; [|reflexivity]. rewrite Hbuf.
          erewrite bind_crash; reflexivity. }
        split; [reflexivity|]. repeat split; (done || cbn; lia). }
    destruct (format "remove partition: n=%d name=%s\n"
                [ArgInt n; ArgStr name_buf]) as [t|] eqn:Hfmt.
    2:{ exists []. erewrite bind_crash; cycle 1.
        { erewrite bind_run; [|reflexivity]. rewrite Hbuf.
          erewrite bind_run; [|reflexivity].
          erewrite bind_crash; [reflexivity|]. by apply printf_crash. }
        split; [reflexivity|]. repeat split; (done || cbn; lia). }
    eexists. erewrite bind_run; cycle 1.
    { erewrite bind_run; [|reflexivity]. rewrite Hbuf.
      erewrite bind_run; [|reflexivity].
      erewrite bind_run; [|by apply printf_run].
      apply commit_run. }
    erewrite bind_run; [|apply emit_run].
    unfold close. rewrite emit_run, !logged_logged.
    split; [reflexivity|]. repeat split; (done || cbn; lia).
  - exists [GptDeviceRelease gpt'; Close fd].
    erewrite bind_run; [|reflexivity].
    erewrite bind_run; [|apply emit_run].
    unfold close. rewrite emit_run, !logged_logged.
    split; [reflexivity|]. repeat split; (done || cbn; lia).
Qed.

Lemma removal_is_keyed_by_the_identifier_witness :
  let gpt := table_of true [Some 1; Some 2]%positive in
  let P := machine 128 512 gpt 0 0 0 in
  let dev := "/dev/class/block/000"%string in
  let s := start enter in
  let s1 := (init P dev true s).2 in
  init P dev true s = (Return (Some (gpt, 3)), s1)
  ∧ 0 ≤ 1 < PARTITIONS_COUNT P
  ∧ partitions (device gpt) !! Z.to_nat 1 = Some (Some 2%positive)
  ∧ entries gpt !! 2%positive = Some entry_b
  ∧ ∃ es : list event,
      (remove_partition P dev 1 s).2
      = logged s1 (GptPartitionRemove gpt (guid entry_b) :: es)
      ∧ count is_removal es = 0%nat ∧ count is_insertion es = 0%nat
      ∧ (count is_sync es ≤ 1)%nat
      ∧ ((gpt_partition_remove P gpt (guid entry_b)).1 ≠ 0 →
         count is_sync es = 0%nat).
Proof.
  intros gpt P dev s s1.
  split; [reflexivity|]. split; [simpl; lia|]. split; [reflexivity|].
  split; [reflexivity|].
  apply (removal_is_keyed_by_the_identifier P dev 1 s s1 gpt 3
           2%positive entry_b);
    [reflexivity | simpl; lia | reflexivity | reflexivity].
Defined.

(** *** [utf16_to_cstring] *)

(** X16: decoding [len] units never needs more than [len] bytes: with a
    source of at least [len] units and a destination of at least [len]
    bytes the loop stays within both, the destination keeps its size, it
    starts with the kept characters, and its bytes from offset [len] on are
    untouched. *)
Theorem utf16_stays_within_len_bytes (dst src : list Z) (len : nat) :
  (len ≤ length src)%nat → (len ≤ length dst)%nat →
  ∃ out, utf16_to_cstring dst src len = Some out
         ∧ length out = length dst
         ∧ take (length (kept (take len src))) out = kept (take len src)
         ∧ drop len out = drop len dst.
Proof.
  intros Hsrc Hdst.
  pose proof (kept_length (take len src)) as Hk.
  rewrite length_take in Hk.
  exists (kept (take len src) ++ drop (length (kept (take len src))) dst).
  split; [apply utf16_to_cstring_buffer; lia|]. split; [|split].
  - rewrite length_app, length_drop. lia.
  - by rewrite take_app_length.
  - rewrite drop_app_ge by lia. rewrite drop_drop. f_equal. lia.
Qed.

Lemma utf16_stays_within_len_bytes_witness :
  let src := [65; 0; 0x142; 0x80; 99] in
  let dst := [1; 2; 3; 4; 5; 6] in
  (5 ≤ length src)%nat ∧ (5 ≤ length dst)%nat
  ∧ ∃ out, utf16_to_cstring dst src 5 = Some out
           ∧ length out = length dst
           ∧ take (length (kept (take 5 src))) out = kept (take 5 src)
           ∧ drop 5 out = drop 5 dst.
Proof.
  intros src dst. split; [simpl; lia|]. split; [simpl; lia|].
  apply (utf16_stays_within_len_bytes dst src 5); simpl; lia.
Defined.

Lemma utf16_loop_overflow (units : list Z) :
  ∀ (ptr : nat) (dst : list Z),
    (ptr ≤ length dst)%nat → (length dst < ptr + length (kept units))%nat →
    utf16_loop units ptr dst = None.
Proof.
  induction units as [|u rest IH]; intros ptr dst Hptr Hover.
  - simpl in Hover. lia.
  - unfold kept in *. simpl in *. rewrite filter_cons in Hover.
    destruct (Z.eqb_spec (Z.land u 127) 0) as [E|E];
      destruct (decide (Z.land u 127 ≠ 0)) as [E'|E']; try done.
    + by apply IH.
    + simpl in Hover. destruct (decide (ptr < length dst)%nat); [|done].
      apply IH; rewrite length_insert; lia.
Qed.

(** X17: the decoder does not know the size of its destination: when the
    units it keeps outnumber the bytes of the destination, it writes past
    the end. *)
Theorem utf16_overruns_a_short_destination (dst src : list Z) (len : nat) :
  (len ≤ length src)%nat →
  (length dst < length (kept (take len src)))%nat →
  utf16_to_cstring dst src len = None.
Proof.
  intros Hsrc Hover. unfold utf16_to_cstring.
  rewrite decide_True by done. apply utf16_loop_overflow; lia.
Qed.

Lemma utf16_overruns_a_short_destination_witness :
  let src := [65; 66; 67] in
  let dst := [0; 0] in
  (3 ≤ length src)%nat
  ∧ (length dst < length (kept (take 3 src)))%nat
  ∧ utf16_to_cstring dst src 3 = None.
Proof.
  intros src dst. split; [simpl; lia|]. split; [vm_compute; lia|].
  apply (utf16_overruns_a_short_destination dst src 3);
    [simpl; lia | vm_compute; lia].
Defined.

Lemma utf16_loop_low_bits (units units' : list Z) :
  map (λ u, Z.land u 127) units = map (λ u, Z.land u 127) units' →
  ∀ (ptr : nat) (dst : list Z),
    utf16_loop units ptr dst = utf16_loop units' ptr dst.
Proof.
  revert units'. induction units as [|u rest IH]; intros [|u' rest'] Heq;
    try discriminate Heq; [done|].
  injection Heq as Hu Hrest. intros ptr dst. simpl. rewrite <- Hu.
  destruct (Z.land u 127 =? 0); [by apply IH|].
  destruct (decide (ptr < length dst)%nat); [by apply IH|done].
Qed.

(** X18: only the low seven bits of a unit reach the display: two name
    fields whose units agree on these bits decode alike, into the same
    bytes of the destination. *)
Theorem utf16_reads_the_low_seven_bits (dst src src' : list Z) (len : nat) :
  (len ≤ length src)%nat → (len ≤ length src')%nat →
  map (λ u, Z.land u 127) (take len src)
  = map (λ u, Z.land u 127) (take len src') →
  utf16_to_cstring dst src len = utf16_to_cstring dst src' len.
Proof.
  intros Hsrc Hsrc' Hlow. unfold utf16_to_cstring.
  rewrite !decide_True by done. by apply utf16_loop_low_bits.
Qed.

Lemma utf16_reads_the_low_seven_bits_witness :
  let src := [0x41; 0x42; 0] in
  let src' := [0x141; 0xC2; 0x80] in
  (3 ≤ length src)%nat ∧ (3 ≤ length src')%nat
  ∧ map (λ u, Z.land u 127) (take 3 src) = map (λ u, Z.land u 127) (take 3 src')
  ∧ utf16_to_cstring (replicate 4 0) src 3
    = utf16_to_cstring (replicate 4 0) src' 3.
Proof.
  intros src src'. split; [simpl; lia|]. split; [simpl; lia|].
  split; [reflexivity|].
  apply (utf16_reads_the_low_seven_bits (replicate 4 0) src src' 3);
    [simpl; lia | simpl; lia | reflexivity].
Defined.

(** *** [guid_to_cstring] *)

Lemma hex_digit_range (d : Z) :
  0 ≤ d < 16 →
  48 ≤ hex_digit true d ≤ 57 ∨ 65 ≤ hex_digit true d ≤ 70.
Proof. intros Hd. unfold hex_digit. destruct (Z.ltb_spec d 10); lia. Qed.

Lemma hex_digit_inj (d d' : Z) :
  0 ≤ d < 16 → 0 ≤ d' < 16 →
  hex_digit true d = hex_digit true d' → d = d'.
Proof.
  intros Hd Hd'. unfold hex_digit.
  destruct (Z.ltb_spec d 10), (Z.ltb_spec d' 10); lia.
Qed.

Lemma byte_nibbles (b : Z) :
  is_byte b → 0 ≤ b / 16 < 16 ∧ 0 ≤ b mod 16 < 16.
Proof.
  intros [Hlo Hhi]. split.
  - split; [apply Z.div_pos | apply Z.div_lt_upper_bound]; lia.
  - apply Z.mod_pos_bound. lia.
Qed.

Lemma hex2_inj (b b' : Z) :
  is_byte b → is_byte b' →
  hex_digit true (b / 16) = hex_digit true (b' / 16) →
  hex_digit true (b mod 16) = hex_digit true (b' mod 16) →
  b = b'.
Proof.
  intros Hb Hb' Hhi Hlo.
  destruct (byte_nibbles b Hb) as [H1 H2].
  destruct (byte_nibbles b' Hb') as [H1' H2'].
  apply hex_digit_inj in Hhi; [|done..].
  apply hex_digit_inj in Hlo; [|done..].
  rewrite (Z.div_mod b 16), (Z.div_mod b' 16) by lia. congruence.
Qed.

Lemma hex2_guid_chars (b : Z) : is_byte b → Forall is_guid_char (hex2 b).
Proof.
  intros Hb. destruct (byte_nibbles b Hb) as [H1 H2].
  unfold hex2, is_guid_char.
  apply Forall_cons_2; [right; by apply hex_digit_range|].
  apply Forall_cons_2; [right; by apply hex_digit_range|].
  apply Forall_nil_2.
Qed.

Lemma hyphenated_guid_chars (groups : list (list Z)) :
  Forall (Forall is_byte) groups → Forall is_guid_char (hyphenated groups).
Proof.
  assert (∀ g, Forall is_byte g → Forall is_guid_char (g ≫= hex2)) as Hg.
  { induction 1 as [|b g Hb _ IH]; [constructor|].
    rewrite bind_cons. apply Forall_app. split; [by apply hex2_guid_chars | done]. }
  induction 1 as [|g rest H _ IH]; simpl; [constructor|].
  destruct rest as [|g' rest]; [by apply Hg|].
  apply Forall_app. split; [by apply Hg|].
  constructor; [by left | done].
Qed.

(** X19: the rendering of a 16-byte identifier is 36 characters, each an
    upper-case hexadecimal digit or a hyphen, with the hyphens at offsets
    8, 13, 18 and 23; it is stored with its terminator at the start of the
    destination, whose bytes from offset 37 on are untouched. *)
Theorem guid_text_has_the_canonical_shape (dst src : list Z) :
  length src = 16%nat → Forall is_byte src → (36 < length dst)%nat →
  ∃ text, guid_to_cstring dst src = Some (text ++ 0 :: drop 37 dst)
          ∧ length text = 36%nat
          ∧ Forall is_guid_char text
          ∧ text !! 8%nat = Some 45 ∧ text !! 13%nat = Some 45
          ∧ text !! 18%nat = Some 45 ∧ text !! 23%nat = Some 45.
Proof.
  intros Hlen Hbytes Hdst. exists (hyphenated (printed_groups src)).
  split; [by apply guid_to_cstring_buffer|].
  split; [by apply guid_text_length|].
  split; [by apply hyphenated_guid_chars, printed_groups_bytes|].
  do 17 (destruct src as [|? src]; try discriminate Hlen).
  repeat split; reflexivity.
Qed.

Lemma guid_text_has_the_canonical_shape_witness :
  let src := seqZ 16 16 in
  let dst := replicate 40 7 in
  length src = 16%nat ∧ Forall is_byte src ∧ (36 < length dst)%nat
  ∧ ∃ text, guid_to_cstring dst src = Some (text ++ 0 :: drop 37 dst)
            ∧ length text = 36%nat
            ∧ Forall is_guid_char text
            ∧ text !! 8%nat = Some 45 ∧ text !! 13%nat = Some 45
            ∧ text !! 18%nat = Some 45 ∧ text !! 23%nat = Some 45.
Proof.
  intros src dst.
  assert (Forall is_byte src) as Hbytes
    by (vm_compute; repeat constructor; discriminate).
  split; [reflexivity|]. split; [exact Hbytes|]. split; [simpl; lia|].
  apply (guid_text_has_the_canonical_shape dst src);
    [reflexivity | exact Hbytes | simpl; lia].
Defined.

Lemma guid_format_run (src : list Z) :
  length src = 16%nat → Forall is_byte src →
  (mapM (λ k, ArgInt <$> src !! k) guid_order ≫= format guid_format)
  = Some (hyphenated (printed_groups src)).
Proof.
  intros Hlen Hbytes.
  do 17 (destruct src as [|? src]; try discriminate Hlen).
  repeat match goal with
         | H : Forall _ (_ :: _) |- _ =>
             apply Forall_cons in H; destruct H as [?%fmt_02X_byte H]
         end.
  cbn -[fmt_02X].
  repeat match goal with H : fmt_02X _ = _ |- _ => rewrite H; clear H end.
  reflexivity.
Qed.

(** X20: the rendering needs 37 bytes of destination and 16 bytes of
    source: for a 16-byte identifier it stays within the destination
    exactly when the destination has at least 37 bytes, and on a source of
    fewer than 16 bytes it reads past the end of the source. *)
Theorem guid_rendering_needs_37_bytes (dst src : list Z) :
  Forall is_byte src →
  (length src = 16%nat →
   (is_Some (guid_to_cstring dst src) ↔ (37 ≤ length dst)%nat))
  ∧ ((length src < 16)%nat → guid_to_cstring dst src = None).
Proof.
  intros Hbytes. split.
  - intros Hlen. split.
    + intros [out Hout]. unfold guid_to_cstring, sprintf in Hout.
      pose proof (guid_format_run src Hlen Hbytes) as Hfmt.
      destruct (mapM _ guid_order) as [args|]; [|discriminate Hfmt].
      cbn [mbind option_bind] in Hfmt, Hout. rewrite Hfmt in Hout.
      cbn [mbind option_bind] in Hout.
      rewrite guid_text_length in Hout by done.
      destruct (decide (36 < length dst)%nat); [lia|discriminate Hout].
    + intros Hdst. rewrite guid_to_cstring_buffer by (done || lia). by eexists.
  - intros Hshort. unfold guid_to_cstring.
    destruct (mapM _ guid_order) as [args|] eqn:Hargs; [|done].
    assert (is_Some (mapM (λ k, ArgInt <$> src !! k) guid_order)) as Hsome
      by (by eexists).
    apply mapM_is_Some in Hsome.
    assert (15%nat ∈ guid_order) as H15 by (unfold guid_order; set_solver).
    apply (proj1 (Forall_forall _ _) Hsome) in H15.
    destruct H15 as [a Ha]. simpl in Ha.
    rewrite (lookup_ge_None_2 src 15) in Ha by lia. discriminate Ha.
Qed.

Lemma guid_rendering_needs_37_bytes_witness :
  let src := seqZ 0 16 in
  Forall is_byte src
  ∧ (length src = 16%nat →
     (is_Some (guid_to_cstring (replicate 36 0) src)
      ↔ (37 ≤ length (replicate 36 0))%nat))
  ∧ ((length src < 16)%nat → guid_to_cstring (replicate 36 0) src = None).
Proof.
  intros src.
  assert (Forall is_byte src) as Hbytes
    by (vm_compute; repeat constructor; discriminate).
  split; [exact Hbytes|].
  apply (guid_rendering_needs_37_bytes (replicate 36 0) src Hbytes).
Defined.

(** X21: the rendering loses nothing: two 16-byte identifiers that render
    to the same text are the same identifier. *)
Theorem guid_rendering_is_injective (dst src src' : list Z) :
  length src = 16%nat → Forall is_byte src →
  length src' = 16%nat → Forall is_byte src' →
  (36 < length dst)%nat →
  guid_to_cstring dst src ≫= cstring = guid_to_cstring dst src' ≫= cstring →
  src = src'.
Proof.
  intros Hlen Hbytes Hlen' Hbytes' Hdst.
  rewrite !guid_to_cstring_buffer by done.
  change (cstring (hyphenated (printed_groups src) ++ 0 :: drop 37 dst)
          = cstring (hyphenated (printed_groups src') ++ 0 :: drop 37 dst)
          → src = src').
  rewrite !guid_text_cstring by done.
  do 17 (destruct src as [|? src]; try discriminate Hlen).
  do 17 (destruct src' as [|? src']; try discriminate Hlen').
  repeat match goal with
         | H : Forall _ (_ :: _) |- _ =>
             apply Forall_cons in H; destruct H as [? H]
         end.
  intros [= ]. repeat f_equal; by apply hex2_inj.
Qed.

Lemma guid_rendering_is_injective_witness :
  let src := seqZ 0 16 in
  let dst := replicate 37 0 in
  length src = 16%nat ∧ Forall is_byte src ∧ (36 < length dst)%nat
  ∧ guid_to_cstring dst src ≫= cstring = guid_to_cstring dst src ≫= cstring
  ∧ src = src.
Proof.
  intros src dst.
  assert (Forall is_byte src) as Hbytes
    by (vm_compute; repeat constructor; discriminate).
  split; [reflexivity|]. split; [exact Hbytes|]. split; [simpl; lia|].
  split; [reflexivity|].
  apply (guid_rendering_is_injective dst src src);
    [reflexivity | exact Hbytes | reflexivity | exact Hbytes | simpl; lia
    | reflexivity].
Defined.

(** *** [main] *)

Lemma returns_zero_ret : returns_zero (mret 0).
Proof. intros s z s' [= <- _]. reflexivity. Qed.

Lemma returns_zero_bind {A} (m : prog A) (k : A → prog Z) :
  (∀ a, returns_zero (k a)) → returns_zero (m ≫= k).
Proof.
  intros Hk s z s'. unfold mbind, prog_bind.
  destruct (m s) as [[a| |] s1]; [apply Hk | done | done].
Qed.

Lemma usage_run (s : sys) : usage s = (Return 0, logged s usage_lines).
Proof.
  unfold usage.
  erewrite bind_run; [|by apply printf_run].
  erewrite bind_run; [|by apply printf_run].
  erewrite bind_run; [|by apply printf_run].
  erewrite bind_run; [|by apply printf_run].
  rewrite !logged_logged. reflexivity.
Qed.

Lemma returns_zero_usage : returns_zero usage.
Proof. intros s z s'. rewrite usage_run. by intros [= <- _]. Qed.

(** X22: the exit status carries no information: whenever [main] returns,
    whatever the command line, the keys and the answers of the device and
    the codec, it returns 0. *)
Theorem main_always_returns_zero
        (P : platform) (strtoull strtol : string → Z)
        (argv : list string) (s s' : sys) (z : Z) :
  main P strtoull strtol argv s = (Return z, s') → z = 0.
Proof.
  revert s z s'. change (returns_zero (main P strtoull strtol argv)).
  unfold main.
  destruct (_ =? 1); [apply returns_zero_usage|].
  apply returns_zero_bind. intros cmd.
  destruct (streq cmd "dump").
  { apply returns_zero_bind. intros dev.
    apply returns_zero_bind. intros _. apply returns_zero_ret. }
  destruct (streq cmd "add").
  { destruct (_ <? 5); [apply returns_zero_usage|].
    do 5 (apply returns_zero_bind; intros ?). apply returns_zero_ret. }
  destruct (streq cmd "remove"); [|apply returns_zero_usage].
  destruct (_ <? 3); [apply returns_zero_usage|].
  do 3 (apply returns_zero_bind; intros ?). apply returns_zero_ret.
Qed.

Lemma main_always_returns_zero_witness :
  let P := machine 4 512 (table_of true [Some 1; Some 2]%positive) 0 0 0 in
  let argv := ["gpt"; "remove"; "1"]%string in
  let r := main P digits_value digits_value argv (start enter) in
  main P digits_value digits_value argv (start enter) = (Return 0, r.2)
  ∧ 0 = 0.
Proof.
  intros P argv r. split; [reflexivity|].
  apply (main_always_returns_zero P digits_value digits_value argv
           (start enter) r.2 0).
  reflexivity.
Defined.

Lemma mret_bind {A B} (a : A) (k : A → prog B) (s : sys) :
  (mret a ≫= k) s = k a s.
Proof. reflexivity. Qed.

Ltac resolve_tests :=
  repeat match goal with
         | |- context [?a =? ?b] => destruct (Z.eqb_spec a b); try lia
         | |- context [?a <? ?b] => destruct (Z.ltb_spec a b); try lia
         end.

(** X23: a command line without a subcommand, with an unknown subcommand,
    or with a subcommand and fewer arguments than it needs gets the four
    lines of the usage text and status 0: no key is read, no device is
    opened. *)
Theorem main_prints_the_usage
        (P : platform) (strtoull strtol : string → Z)
        (argv : list string) (s : sys) :
  malformed argv →
  main P strtoull strtol argv s = (Return 0, logged s usage_lines).
Proof.
  intros [Hone|(cmd & Hcmd & Hbad)]; unfold main.
  - rewrite Hone. simpl. apply usage_run.
  - assert (1 < length argv)%nat as Hlen by (by eapply lookup_lt_Some).
    destruct (Z.eqb_spec (Z.of_nat (length argv)) 1); [lia|].
    unfold arg. rewrite Hcmd. cbn [checked].
    erewrite bind_run; [|reflexivity].
    destruct Hbad as [Hnone|(c & Hc & Hshort)].
    + destruct (streq cmd "dump") eqn:Hd; [by destruct (Hnone Dump)|].
      destruct (streq cmd "add") eqn:Ha; [by destruct (Hnone Add)|].
      destruct (streq cmd "remove") eqn:Hr; [by destruct (Hnone Remove)|].
      apply usage_run.
    + destruct c; simpl in Hc, Hshort.
      * lia.
      * destruct Hc as [-> ->]. resolve_tests. apply usage_run.
      * destruct Hc as (-> & -> & ->). resolve_tests. apply usage_run.
Qed.

Lemma main_prints_the_usage_witness :
  let P := machine 4 512 (table_of true [Some 1; Some 2]%positive) 0 0 0 in
  let argv := ["gpt"; "add"; "34"; "2048"]%string in
  malformed argv
  ∧ main P digits_value digits_value argv (start enter)
    = (Return 0, logged (start enter) usage_lines).
Proof.
  intros P argv.
  assert (malformed argv) as Hbad.
  { right. exists "add"%string. split; [reflexivity|].
    right. exists Add. split; [split; reflexivity | simpl; lia]. }
  split; [exact Hbad|].
  apply (main_prints_the_usage P digits_value digits_value argv
           (start enter) Hbad).
Defined.

(** X24: [main] reads nothing after the device name: with more entries in
    [argv] than the subcommand and its optional device need, it runs as on
    the command line cut after the device. *)
Theorem main_ignores_what_follows_the_device
        (P : platform) (strtoull strtol : string → Z)
        (argv : list string) (cmd : string) (c : command) (s : sys) :
  argv !! 1%nat = Some cmd → selects cmd c →
  (arity c < length argv)%nat →
  main P strtoull strtol argv s
  = main P strtoull strtol (take (S (arity c)) argv) s.
Proof.
  intros Hcmd Hc Hlen.
  destruct c; simpl in Hc, Hlen; cbn [arity].
  - destruct argv as [|p [|cmd' [|d extra]]]; simpl in Hlen; try lia.
    injection Hcmd as ->. unfold main, arg.
    cbn [take length lookup list_lookup checked]. rewrite ?take_0. cbn [length].
    resolve_tests; rewrite !mret_bind, Hc; reflexivity.
  - destruct argv as [|p [|cmd' [|a2 [|a3 [|a4 [|d extra]]]]]];
      simpl in Hlen; try lia.
    injection Hcmd as ->. destruct Hc as [Hd Ha]. unfold main, arg.
    cbn [take length lookup list_lookup checked]. rewrite ?take_0. cbn [length].
    resolve_tests; rewrite !mret_bind, Hd, Ha; reflexivity.
  - destruct argv as [|p [|cmd' [|a2 [|d extra]]]]; simpl in Hlen; try lia.
    injection Hcmd as ->. destruct Hc as (Hd & Ha & Hr). unfold main, arg.
    cbn [take length lookup list_lookup checked]. rewrite ?take_0. cbn [length].
    resolve_tests; rewrite !mret_bind, Hd, Ha, Hr; reflexivity.
Qed.

Lemma main_ignores_what_follows_the_device_witness :
  let P := machine 4 512 (table_of true [Some 1; Some 2]%positive) 0 0 0 in
  let argv := ["gpt"; "remove"; "1"; "/dev/x"; "now"; "please"]%string in
  argv !! 1%nat = Some "remove"%string ∧ selects "remove" Remove
  ∧ (arity Remove < length argv)%nat
  ∧ main P digits_value digits_value argv (start enter)
    = main P digits_value digits_value (take (S (arity Remove)) argv)
           (start enter).
Proof.
  intros P argv.
  assert (selects "remove" Remove) as Hc by (repeat split; reflexivity).
  split; [reflexivity|]. split; [exact Hc|]. split; [simpl; lia|].
  apply (main_ignores_what_follows_the_device P digits_value digits_value
           argv "remove" Remove (start enter) eq_refl Hc).
  simpl. lia.
Defined.

(** X25: leaving the device out is naming the default device: on a command
    line that has exactly the arguments its subcommand needs, [main] runs
    as on the same line followed by "/dev/class/block/000". *)
Theorem main_defaults_the_device
        (P : platform) (strtoull strtol : string → Z)
        (argv : list string) (cmd : string) (c : command) (s : sys) :
  argv !! 1%nat = Some cmd → selects cmd c →
  length argv = arity c →
  main P strtoull strtol argv s
  = main P strtoull strtol (argv ++ [DEFAULT_BLOCKDEV]) s.
Proof.
  intros Hcmd Hc Hlen.
  destruct c; simpl in Hc, Hlen.
  - destruct argv as [|p [|cmd' [|]]]; try discriminate Hlen.
    injection Hcmd as ->. unfold main, arg.
    cbn [app length lookup list_lookup checked]. rewrite ?take_0. cbn [length].
    resolve_tests; rewrite !mret_bind, Hc; reflexivity.
  - destruct argv as [|p [|cmd' [|a2 [|a3 [|a4 [|]]]]]]; try discriminate Hlen.
    injection Hcmd as ->. destruct Hc as [Hd Ha]. unfold main, arg.
    cbn [app length lookup list_lookup checked]. rewrite ?take_0. cbn [length].
    resolve_tests; rewrite !mret_bind, Hd, Ha; reflexivity.
  - destruct argv as [|p [|cmd' [|a2 [|]]]]; try discriminate Hlen.
    injection Hcmd as ->. destruct Hc as (Hd & Ha & Hr). unfold main, arg.
    cbn [app length lookup list_lookup checked]. rewrite ?take_0. cbn [length].
    resolve_tests; rewrite !mret_bind, Hd, Ha, Hr; reflexivity.
Qed.

Lemma main_defaults_the_device_witness :
  let P := machine 4 512 (table_of true [Some 1; Some 2]%positive) 0 0 0 in
  let argv := ["gpt"; "dump"]%string in
  argv !! 1%nat = Some "dump"%string ∧ selects "dump" Dump
  ∧ length argv = arity Dump
  ∧ main P digits_value digits_value argv (start [])
    = main P digits_value digits_value (argv ++ [DEFAULT_BLOCKDEV]) (start []).
Proof.
  intros P argv.
  assert (selects "dump" Dump) as Hc by reflexivity.
  split; [reflexivity|]. split; [exact Hc|]. split; [reflexivity|].
  apply (main_defaults_the_device P digits_value digits_value
           argv "dump" Dump (start []) eq_refl Hc).
  reflexivity.
Defined.
